(** * LaHu Smart Car Park: the STM32 controller's serial protocol engine

    A shallow embedding of [src/main.c]: the CRC-8 checksum unit
    ([CalculateCRC8]), the frame encoder ([SendPacket]), the byte-driven
    receive state machine ([HAL_UART_RxCpltCallback]), the event dispatcher
    ([ProcessReceivedPacket]), the servo clamp ([SetServoAngle]) and the
    debounce / heartbeat block of the main loop.

    Conventions.
    - A [uint8_t] or [uint32_t] is a [Z]; every conversion back to the
      unsigned type is written out with [u8] or [u32].
    - A C array is a [list Z]; [load] and [store] return [None] where the C
      program would touch a cell outside the array (undefined behaviour).
    - The calls that act on a collaborator (the link's transmit side, the
      PWM compare register, the display) are recorded as [event]s, in program
      order.  What [HAL_GPIO_ReadPin] and [HAL_GetTick] return is an input of
      the loop ([sample]); re-arming the reception with
      [HAL_UART_Receive_IT] is not modelled. *)

From Stdlib Require Import ZArith List Lia Bool String Ascii.
From stdpp Require Import base option list.

Local Open Scope Z_scope.

(** ** Machine integers and arrays *)

Definition u8 (z : Z) : Z := z mod 256.
Definition u32 (z : Z) : Z := z mod 2 ^ 32.

Definition is_u8 (z : Z) : Prop := 0 <= z < 256.
Definition is_u32 (z : Z) : Prop := 0 <= z < 2 ^ 32.

(** [a[i]] as an rvalue. *)
Definition load (a : list Z) (i : Z) : option Z :=
  if decide (0 <= i) then a !! Z.to_nat i else None.

(** [a[i] = v]. *)
Definition store (a : list Z) (i : Z) (v : Z) : option (list Z) :=
  if decide (0 <= i < Z.of_nat (length a))
  then Some (<[Z.to_nat i := v]> a) else None.

(** ** Private definitions (main.c, lines 17-31) *)

Definition UART_TIMEOUT : Z := 10.
Definition DEBOUNCE_TIME : Z := 50.
Definition PACKET_START : Z := 0xAA.
Definition BUFFER_SIZE : Z := 32.

Definition EVENT_DISPLAY : Z := 0x01.
Definition EVENT_SERVO : Z := 0x02.
Definition EVENT_CAR_DETECT : Z := 0x03.
Definition EVENT_LP_STATUS : Z := 0x04.
Definition EVENT_PARK_FULL : Z := 0x05.

Definition SERVO_CLOSED : Z := 0.
Definition SERVO_OPEN : Z := 90.

(** ** Checksum unit: [CalculateCRC8] (main.c, lines 295-312) *)

(** One pass of the inner [for (j = 0; j < 8; j++)] body; the assignment to
    the [uint8_t crc] truncates the shifted value. *)
Definition crc8_shift (crc : Z) : Z :=
  if negb (Z.land crc 0x80 =? 0)
  then u8 (Z.lxor (Z.shiftl crc 1) 0x07)
  else u8 (Z.shiftl crc 1).

(** One pass of the outer loop body: [crc ^= data[i]] and the eight shifts. *)
Definition crc8_byte (crc d : Z) : Z :=
  Nat.iter 8 crc8_shift (Z.lxor crc d).

(** The outer loop, resumed at index [i] with [todo] iterations left and
    [crc] as the running value. *)
Fixpoint crc8_loop (data : list Z) (i : Z) (todo : nat) (crc : Z) : option Z :=
  match todo with
  | O => Some crc
  | S k => d ← load data i; crc8_loop data (i + 1) k (crc8_byte crc d)
  end.

(** [data] is the memory visible from the pointer argument, [length] the
    [uint8_t] count. *)
Definition CalculateCRC8 (data : list Z) (length : Z) : option Z :=
  crc8_loop data 0 (Z.to_nat length) 0.

(** *** Reference CRC-8, written from the specification

    Polynomial 0x07, initial value 0x00, no reflection, most significant bit
    first, the message byte XOR-ed into the top of the register.  The
    register is a vector of eight bits, most significant first; nothing here
    uses machine arithmetic. *)
Module Reference.

Definition register := list bool.

Definition init : register := repeat false 8.

(* x^2 + x + 1, the low coefficients of x^8 + x^2 + x + 1 *)
Definition poly : register :=
  [false; false; false; false; false; true; true; true].

Definition xor_bits (a b : register) : register := zip_with xorb a b.

(** Shift one position towards the most significant end; the bit that
    falls out selects whether the polynomial is subtracted. *)
Definition shift (r : register) : register :=
  match r with
  | [] => []
  | msb :: rest =>
      let shifted := rest ++ [false] in
      if msb then xor_bits shifted poly else shifted
  end.

Definition feed_byte (r : register) (byte_bits : list bool) : register :=
  Nat.iter 8 shift (xor_bits r byte_bits).

Definition bits_of_byte (z : Z) : list bool :=
  map (Z.testbit z) [7; 6; 5; 4; 3; 2; 1; 0].

Definition byte_of_bits (r : register) : Z :=
  fold_left (fun acc (b : bool) => 2 * acc + Z.b2z b) r 0.

Definition crc8 (msg : list Z) : Z :=
  byte_of_bits (fold_left feed_byte (map bits_of_byte msg) init).

End Reference.

(** ** Collaborators: link transmit, PWM compare register, display *)

Inductive event : Type :=
| UartTransmit (bytes : list Z)
    (* HAL_UART_Transmit(&huart2, p, n, UART_TIMEOUT): the n bytes at p *)
| TimSetCompare (pulseWidth : Z)
    (* __HAL_TIM_SET_COMPARE(&htim3, TIM_CHANNEL_1, pulseWidth) *)
| OledDisplay (message : list Z).
    (* OLED_Display(p): the memory visible from p, which u8g2_DrawStr
       reads as a NUL-terminated string *)

Definition bytes_of_string (s : string) : list Z :=
  map (fun a => Z.of_N (N_of_ascii a)) (list_ascii_of_string s).

Definition LF : ascii := ascii_of_nat 10.

(** The image in memory of a C string literal: its characters and the
    terminating NUL. *)
Definition c_literal (s : string) : list Z := bytes_of_string s ++ [0].

Definition is_reply (e : event) : bool :=
  match e with UartTransmit _ => true | _ => false end.

Definition is_actuator_write (e : event) : bool :=
  match e with TimSetCompare _ => true | _ => false end.

Definition is_display_write (e : event) : bool :=
  match e with OledDisplay _ => true | _ => false end.

(** ** [SetServoAngle] (main.c, lines 276-290) *)

Definition clamp_angle (angle : Z) : Z :=
  if 180 <? angle then 180 else angle.

Definition SetServoAngle (angle : Z) : list event :=
  let angle := clamp_angle angle in
  let pulseWidth := u32 (50 + angle * 100 / 180) in
  [TimSetCompare pulseWidth].

(** ** [OLED_Display] (main.c, lines 265-271) *)

Definition OLED_Display (message : list Z) : list event :=
  [OledDisplay message].

(** ** Event dispatcher: [ProcessReceivedPacket] (main.c, lines 166-217)

    [strcpy] into [txBuffer] followed by a transmit of [n] bytes sends the
    first [n] bytes of the literal's image. *)

Definition reply (s : string) (n : Z) : list event :=
  [UartTransmit (take (Z.to_nat n) (c_literal s))].

Definition dispatch_event (eventId : Z) (data : list Z) : option (list event) :=
  if eventId =? EVENT_DISPLAY then
    Some (OLED_Display data)
  else if eventId =? EVENT_SERVO then
    d0 ← load data 0; Some (SetServoAngle d0)
  else if eventId =? EVENT_LP_STATUS then
    d0 ← load data 0;
    Some (if d0 =? 1 then SetServoAngle SERVO_OPEN
          else SetServoAngle SERVO_CLOSED)
  else if eventId =? EVENT_PARK_FULL then
    d0 ← load data 0;
    Some (if d0 =? 1 then OLED_Display (c_literal "Lot Full")
          else OLED_Display (c_literal "Spaces Available"))
  else Some [].

Definition OK_text : string := String.append "OK" (String LF EmptyString).
Definition ERR_text : string := String.append "ERR" (String LF EmptyString).

Definition ProcessReceivedPacket (buffer : list Z) : option (list event) :=
  length ← load buffer 1;
  eventId ← load buffer 2;
  let data := drop 3 buffer in
  receivedCRC ← load buffer (2 + length);
  calculatedCRC ← CalculateCRC8 (drop 2 buffer) length;
  if receivedCRC =? calculatedCRC then
    acts ← dispatch_event eventId data;
    Some (reply OK_text 3 ++ acts)
  else
    Some (reply ERR_text 4).

(** The two values the dispatcher compares (lines 171 and 172). *)
Definition receivedCRC (buffer : list Z) : option Z :=
  length ← load buffer 1; load buffer (2 + length).

Definition calculatedCRC (buffer : list Z) : option Z :=
  length ← load buffer 1; CalculateCRC8 (drop 2 buffer) length.

(** The buffer holds a whole frame: it is the callback's 32-cell array and
    the declared length leaves room for the trailing checksum cell. *)
Definition assembled (buffer : list Z) (len : Z) : Prop :=
  Z.of_nat (length buffer) = BUFFER_SIZE
  /\ load buffer 1 = Some len
  /\ 0 <= len /\ len + 3 <= BUFFER_SIZE.

(** ** Frame encoder: [SendPacket] (main.c, lines 222-242) *)

(** The copy loop [for (i = 0; i < dataLength; i++) packet[index++] = data[i]];
    [index] is a [uint8_t]. *)
Fixpoint send_copy (data packet : list Z) (i index : Z) (todo : nat)
  : option (list Z * Z) :=
  match todo with
  | O => Some (packet, index)
  | S k =>
      d ← load data i;
      packet ← store packet index d;
      send_copy data packet (i + 1) (u8 (index + 1)) k
  end.

(** The local [packet] is uninitialised in C; every cell that is read or
    transmitted is written first, so it starts here as zeros. *)
Definition SendPacket (eventId : Z) (data : list Z) (dataLength : Z)
  : option (list event) :=
  let packet := repeat 0 (Z.to_nat BUFFER_SIZE) in
  packet ← store packet 0 PACKET_START;
  packet ← store packet 1 (u8 (dataLength + 1));
  packet ← store packet 2 eventId;
  '(packet, index) ← send_copy data packet 0 3 (Z.to_nat dataLength);
  crc ← CalculateCRC8 (drop 2 packet) (u8 (dataLength + 1));
  packet ← store packet index crc;
  Some [UartTransmit (take (Z.to_nat (index + 1)) packet)].

(** ** Frame decoder: [HAL_UART_RxCpltCallback] (main.c, lines 122-161) *)

(** The function's [static] locals. *)
Record decoder : Type := Decoder {
  packetBuffer : list Z;
  packetIndex : Z;
  packetState : Z;
  packetLength : Z
}.

Inductive uart_instance : Type := USART1 | USART2 | USART3.

Definition is_USART2 (i : uart_instance) : bool :=
  match i with USART2 => true | _ => false end.

(** [rx] is [rxBuffer[0]].  The second component of the result is [None]
    when [ProcessReceivedPacket] was not called and [Some evs] when it was
    called and emitted [evs]. *)
Definition HAL_UART_RxCpltCallback (huart : uart_instance) (rx : Z) (d : decoder)
  : option (decoder * option (list event)) :=
  if is_USART2 huart then
    if packetState d =? 0 then
      if rx =? PACKET_START then
        buf ← store (packetBuffer d) 0 PACKET_START;
        Some (Decoder buf 1 1 (packetLength d), None)
      else Some (d, None)
    else if packetState d =? 1 then
      let packetLength := rx in
      buf ← store (packetBuffer d) (packetIndex d) packetLength;
      Some (Decoder buf (u8 (packetIndex d + 1)) 2 packetLength, None)
    else if packetState d =? 2 then
      buf ← store (packetBuffer d) (packetIndex d) rx;
      let packetIndex := u8 (packetIndex d + 1) in
      if packetIndex >=? packetLength d + 3 then
        evs ← ProcessReceivedPacket buf;
        Some (Decoder buf 0 0 (packetLength d), Some evs)
      else Some (Decoder buf packetIndex 2 (packetLength d), None)
    else Some (d, None)
  else Some (d, None).

(** The statics' initialisers. *)
Definition decoder_init : decoder :=
  Decoder (repeat 0 (Z.to_nat BUFFER_SIZE)) 0 0 0.

(** What holds of the statics between two calls of the callback. *)
Definition decoder_wf (d : decoder) : Prop :=
  Z.of_nat (length (packetBuffer d)) = BUFFER_SIZE
  /\ (packetState d = 0
      \/ (packetState d = 1 /\ packetIndex d = 1)
      \/ (packetState d = 2
          /\ 2 <= packetIndex d <= BUFFER_SIZE
          /\ packetIndex d < packetLength d + 3
          /\ load (packetBuffer d) 1 = Some (packetLength d))).

(** The callback run once per received byte, in arrival order; the result
    lists the dispatches, one entry per call of [ProcessReceivedPacket]. *)
Fixpoint receive (bytes : list Z) (d : decoder)
  : option (decoder * list (list event)) :=
  match bytes with
  | [] => Some (d, [])
  | rx :: rest =>
      '(d1, out) ← HAL_UART_RxCpltCallback USART2 rx d;
      '(d2, outs) ← receive rest d1;
      Some (d2, from_option (fun evs => [evs]) [] out ++ outs)
  end.

(** ** Presence monitor: the body of [while (1)] (main.c, lines 91-116) *)

(** The globals the loop owns. *)
Record presence : Type := Presence {
  carDetected : Z;
  lastCarDetected : Z;
  lastDebounceTime : Z;
  lastDetectionSendTime : Z
}.

(** What one pass of the loop reads from outside: the pin, and the value
    each of the four [HAL_GetTick()] calls returns (lines 97, 100, 112, 114). *)
Record sample : Type := Sample {
  pin : Z;
  tick_mark : Z;
  tick_check : Z;
  tick_beat : Z;
  tick_stamp : Z
}.

(** A pass during which the tick counter does not advance. *)
Definition at_tick (t : Z) (reading : Z) : sample := Sample reading t t t t.

(** Lines 94-109.  The events are the change report of line 105. *)
Definition debounce_block (i : sample) (p : presence)
  : option (presence * list event) :=
  let currentSensorState := pin i in
  let lastDebounceTime :=
    if negb (currentSensorState =? lastCarDetected p)
    then tick_mark i else lastDebounceTime p in
  '(carDetected, tx) ←
    (if DEBOUNCE_TIME <? u32 (tick_check i - lastDebounceTime) then
       if negb (carDetected p =? currentSensorState) then
         let carDetected := currentSensorState in
         tx ← SendPacket EVENT_CAR_DETECT [carDetected] 1;
         Some (carDetected, tx)
       else Some (carDetected p, [])
     else Some (carDetected p, []));
  Some (Presence carDetected currentSensorState lastDebounceTime
          (lastDetectionSendTime p), tx).

(** Lines 111-115.  The events are the periodic report of line 113. *)
Definition periodic_block (i : sample) (p : presence)
  : option (presence * list event) :=
  if 1000 <? u32 (tick_beat i - lastDetectionSendTime p) then
    tx ← SendPacket EVENT_CAR_DETECT [carDetected p] 1;
    Some (Presence (carDetected p) (lastCarDetected p) (lastDebounceTime p)
            (tick_stamp i), tx)
  else Some (p, []).

(** What one pass transmitted, by call site. *)
Record reports : Type := Reports {
  change_report : list event;
  periodic_report : list event
}.

Definition main_loop_body (i : sample) (p : presence)
  : option (presence * reports) :=
  '(p, chg) ← debounce_block i p;
  '(p, per) ← periodic_block i p;
  Some (p, Reports chg per).

Fixpoint main_loop (samples : list sample) (p : presence)
  : option (presence * list reports) :=
  match samples with
  | [] => Some (p, [])
  | i :: rest =>
      '(p1, r) ← main_loop_body i p;
      '(p2, rs) ← main_loop rest p1;
      Some (p2, r :: rs)
  end.

(** The change reports of a run, in order. *)
Definition change_events (rs : list reports) : list event :=
  concat (map change_report rs).

(** The globals' initialisers (lines 42-45). *)
Definition presence_init : presence := Presence 0 0 0 0.

(** The value [lastDebounceTime] has after line 98. *)
Definition next_mark (i : sample) (p : presence) : Z :=
  if negb (pin i =? lastCarDetected p) then tick_mark i else lastDebounceTime p.

(** Whether the pass reaches line 105. *)
Definition fires (i : sample) (p : presence) : bool :=
  (DEBOUNCE_TIME <? u32 (tick_check i - next_mark i p))
  && negb (carDetected p =? pin i).

(** The raw reading keeps changing: at every pass, the pass that last saw
    the reading differ from the one before it (at tick [mark]; [last] is the
    reading of the previous pass) lies at most [DEBOUNCE_TIME] back. *)
Fixpoint recently_changed (last mark : Z) (samples : list sample) : Prop :=
  match samples with
  | [] => True
  | i :: rest =>
      let mark' := if negb (pin i =? last) then tick_mark i else mark in
      u32 (tick_check i - mark') <= DEBOUNCE_TIME
      /\ recently_changed (pin i) mark' rest
  end.

(** The periodic reports of a run, in order. *)
Definition periodic_events (rs : list reports) : list event :=
  concat (map periodic_report rs).

(** Everything a run transmitted, pass by pass: the change report of a pass
    goes out before its periodic report. *)
Definition transmissions (rs : list reports) : list event :=
  concat (map (fun r => change_report r ++ periodic_report r) rs).

(** How a callee reads a [const char *]: the cells up to the first NUL. *)
Fixpoint c_string (mem : list Z) : list Z :=
  match mem with
  | [] => []
  | c :: rest => if c =? 0 then [] else c :: c_string rest
  end.

(** ** The display's byte transport: [u8x8_byte_stm32_hw_i2c]
       (main.c, lines 332-366) *)

(** The message codes the [switch] distinguishes; the macros' values are
    u8g2's, any other code falls to [default]. *)
Inductive u8x8_msg : Type :=
| U8X8_MSG_BYTE_SEND
| U8X8_MSG_BYTE_INIT
| U8X8_MSG_BYTE_SET_DC
| U8X8_MSG_BYTE_START_TRANSFER
| U8X8_MSG_BYTE_END_TRANSFER
| U8X8_MSG_other.

(** The function's [static] locals [buffer] and [buf_idx]. *)
Record i2c_staging : Type := I2cStaging {
  i2c_buffer : list Z;
  buf_idx : Z
}.

Definition i2c_staging_init : i2c_staging :=
  I2cStaging (repeat 0 32) 0.

(** [HAL_I2C_Master_Transmit(&hi2c1, DevAddress, p, Size, 1000)]: the
    address and the [Size] bytes at [p]. *)
Inductive i2c_event : Type :=
| I2cMasterTransmit (DevAddress : Z) (bytes : list Z).

(** The loop [while (arg_int > 0) { buffer[buf_idx++] = *data; data++;
    arg_int--; }]; [data] is the memory visible from the pointer. *)
Fixpoint i2c_stage (data : list Z) (st : i2c_staging) (arg_int : nat)
  : option i2c_staging :=
  match arg_int with
  | O => Some st
  | S k =>
      c ← load data 0;
      buf ← store (i2c_buffer st) (buf_idx st) c;
      i2c_stage (drop 1 data) (I2cStaging buf (u8 (buf_idx st + 1))) k
  end.

(** [address] is what [u8x8_GetI2CAddress(u8x8)] returns.  The result is the
    statics, the return value and the bus traffic. *)
Definition u8x8_byte_stm32_hw_i2c
    (address : Z) (msg : u8x8_msg) (arg_int : Z) (arg_ptr : list Z)
    (st : i2c_staging) : option (i2c_staging * Z * list i2c_event) :=
  match msg with
  | U8X8_MSG_BYTE_SEND =>
      st ← i2c_stage arg_ptr st (Z.to_nat arg_int);
      Some (st, 1, [])
  | U8X8_MSG_BYTE_INIT => Some (st, 1, [])
  | U8X8_MSG_BYTE_SET_DC => Some (st, 1, [])
  | U8X8_MSG_BYTE_START_TRANSFER =>
      Some (I2cStaging (i2c_buffer st) 0, 1, [])
  | U8X8_MSG_BYTE_END_TRANSFER =>
      Some (st, 1,
            [I2cMasterTransmit (Z.shiftl address 1)
               (take (Z.to_nat (buf_idx st)) (i2c_buffer st))])
  | U8X8_MSG_other => Some (st, 0, [])
  end.

(** One call of the transport per message, in order: the final statics, the
    return values and the bus traffic. *)
Fixpoint i2c_calls (address : Z) (calls : list (u8x8_msg * list Z))
    (st : i2c_staging) : option (i2c_staging * list Z * list i2c_event) :=
  match calls with
  | [] => Some (st, [], [])
  | (msg, bytes) :: rest =>
      '(st1, ret, ev) ←
        u8x8_byte_stm32_hw_i2c address msg (Z.of_nat (length bytes)) bytes st;
      '(st2, rets, evs) ← i2c_calls address rest st1;
      Some (st2, ret :: rets, ev ++ evs)
  end.

(** ** Auxiliary definitions *)

(** The outer loop of [CalculateCRC8] over a span, as a fold. *)
Definition crc8_fold (crc : Z) (bs : list Z) : Z := fold_left crc8_byte bs crc.

(** The bytes of a frame: start marker, length, event id, payload, and the
    checksum of the event id and the payload. *)
Definition frame_bytes (eventId : Z) (data : list Z) : list Z :=
  [PACKET_START; Z.of_nat (length data) + 1; eventId]
  ++ data ++ [crc8_fold 0 (eventId :: data)].

(** The 256 byte values, for statements checked by enumeration. *)
Definition all_u8 : list Z := map Z.of_nat (seq 0 256).

Definition list_bool_eqb (a b : list bool) : bool :=
  if decide (a = b) then true else false.

(** ** Facts about the checksum unit *)

Lemma all_u8_complete (z : Z) : is_u8 z -> In z all_u8.
Proof.
  intros Hz. unfold all_u8. apply in_map_iff.
  exists (Z.to_nat z). split; [unfold is_u8 in Hz; lia|].
  apply in_seq. unfold is_u8 in Hz. lia.
Qed.

(** A property checked on all 256 byte values holds of every byte. *)
Lemma u8_exhaust (P : Z -> bool) :
  forallb P all_u8 = true -> forall z, is_u8 z -> P z = true.
Proof.
  intros H z Hz. rewrite forallb_forall in H. apply H, all_u8_complete, Hz.
Qed.

Lemma u8_exhaust2 (P : Z -> Z -> bool) :
  forallb (fun a => forallb (P a) all_u8) all_u8 = true ->
  forall a b, is_u8 a -> is_u8 b -> P a b = true.
Proof.
  intros H a b Ha Hb.
  pose proof (u8_exhaust _ H a Ha) as Hrow. cbv beta in Hrow.
  exact (u8_exhaust _ Hrow b Hb).
Qed.

Lemma crc8_byte_u8 (crc d : Z) : is_u8 (crc8_byte crc d).
Proof.
  unfold crc8_byte. change 8%nat with (S 7). simpl Nat.iter.
  unfold crc8_shift at 1, u8, is_u8.
  destruct (negb _); apply Z.mod_pos_bound; lia.
Qed.

Lemma crc8_byte_reference (crc d : Z) :
  is_u8 crc -> is_u8 d ->
  Reference.bits_of_byte (crc8_byte crc d)
  = Reference.feed_byte (Reference.bits_of_byte crc) (Reference.bits_of_byte d).
Proof.
  intros Hc Hd.
  pose proof (u8_exhaust2
    (fun c e => list_bool_eqb
       (Reference.bits_of_byte (crc8_byte c e))
       (Reference.feed_byte (Reference.bits_of_byte c) (Reference.bits_of_byte e))))
    as H.
  specialize (H ltac:(vm_compute; reflexivity) crc d Hc Hd).
  unfold list_bool_eqb in H. destruct (decide _) as [E|]; [exact E|discriminate].
Qed.

Lemma byte_of_bits_of_byte (z : Z) :
  is_u8 z -> Reference.byte_of_bits (Reference.bits_of_byte z) = z.
Proof.
  intros Hz.
  pose proof (u8_exhaust
    (fun c => Reference.byte_of_bits (Reference.bits_of_byte c) =? c)) as H.
  specialize (H ltac:(vm_compute; reflexivity) z Hz).
  apply Z.eqb_eq, H.
Qed.

(** The catalogue check value of CRC-8 (polynomial 0x07, initial value 0):
    the ASCII digits 1 to 9 give 0xF4, by the code and by the reference. *)
Example crc8_check_value :
  CalculateCRC8 (bytes_of_string "123456789") 9 = Some 0xF4
  /\ Reference.crc8 (bytes_of_string "123456789") = 0xF4.
Proof. split; vm_compute; reflexivity. Qed.

(** ** Arrays *)

Lemma load_lookup (a : list Z) (i : Z) :
  0 <= i -> load a i = a !! Z.to_nat i.
Proof. intros Hi. unfold load. destruct (decide _); [reflexivity|lia]. Qed.

Lemma load_nat (a : list Z) (n : nat) : load a (Z.of_nat n) = a !! n.
Proof. rewrite load_lookup by lia. now rewrite Nat2Z.id. Qed.

Lemma store_in_bounds (a : list Z) (i v : Z) :
  0 <= i < Z.of_nat (length a) -> store a i v = Some (<[Z.to_nat i := v]> a).
Proof. intros Hi. unfold store. destruct (decide _); [reflexivity|lia]. Qed.

Lemma store_out_of_bounds (a : list Z) (i v : Z) :
  Z.of_nat (length a) <= i -> store a i v = None.
Proof. intros Hi. unfold store. destruct (decide _); [lia|reflexivity]. Qed.

Lemma store_Some (a b : list Z) (i v : Z) :
  store a i v = Some b ->
  0 <= i < Z.of_nat (length a) /\ b = <[Z.to_nat i := v]> a.
Proof.
  unfold store. destruct (decide _); [|discriminate].
  intros [= <-]. split; [assumption|reflexivity].
Qed.

(** Writing cell [length pre] of [pre ++ x :: post]. *)
Lemma insert_middle (pre post : list Z) (x v : Z) :
  <[length pre := v]> (pre ++ x :: post) = pre ++ v :: post.
Proof. rewrite insert_app_r_alt by lia. now rewrite Nat.sub_diag. Qed.

(** ** The checksum loop as a fold *)

Lemma crc8_loop_fold (data : list Z) (todo : nat) :
  forall (i : nat) (crc : Z),
    (i + todo <= length data)%nat ->
    crc8_loop data (Z.of_nat i) todo crc
    = Some (crc8_fold crc (take todo (drop i data))).
Proof.
  induction todo as [|k IH]; intros i crc Hlen; simpl.
  - reflexivity.
  - rewrite load_nat.
    destruct (lookup_lt_is_Some_2 data i ltac:(lia)) as [d Hd].
    rewrite Hd. simpl.
    replace (Z.of_nat i + 1) with (Z.of_nat (S i)) by lia.
    rewrite IH by lia.
    rewrite (drop_S _ _ _ Hd). reflexivity.
Qed.

Lemma CalculateCRC8_span (span rest : list Z) :
  CalculateCRC8 (span ++ rest) (Z.of_nat (length span))
  = Some (crc8_fold 0 span).
Proof.
  unfold CalculateCRC8. rewrite Nat2Z.id.
  rewrite (crc8_loop_fold _ _ 0%nat) by (rewrite length_app; lia).
  rewrite drop_0, take_app_length. reflexivity.
Qed.

Lemma crc8_fold_app (crc : Z) (b1 b2 : list Z) :
  crc8_fold crc (b1 ++ b2) = crc8_fold (crc8_fold crc b1) b2.
Proof. unfold crc8_fold. apply fold_left_app. Qed.

Lemma crc8_fold_u8 (bs : list Z) (crc : Z) :
  is_u8 crc -> is_u8 (crc8_fold crc bs).
Proof.
  revert crc. induction bs as [|b bs IH]; intros crc Hc; simpl; [assumption|].
  apply IH, crc8_byte_u8.
Qed.

Lemma crc8_fold_reference (bs : list Z) :
  Forall is_u8 bs ->
  forall crc, is_u8 crc ->
    Reference.bits_of_byte (crc8_fold crc bs)
    = fold_left Reference.feed_byte (map Reference.bits_of_byte bs)
        (Reference.bits_of_byte crc).
Proof.
  induction 1 as [|b bs Hb _ IH]; intros crc Hc; simpl; [reflexivity|].
  rewrite IH by apply crc8_byte_u8.
  now rewrite crc8_byte_reference.
Qed.

Lemma crc8_fold_is_reference (bs : list Z) :
  Forall is_u8 bs -> crc8_fold 0 bs = Reference.crc8 bs.
Proof.
  intros Hbs. unfold Reference.crc8.
  change Reference.init with (Reference.bits_of_byte 0).
  rewrite <- crc8_fold_reference by (assumption || (unfold is_u8; lia)).
  symmetry. apply byte_of_bits_of_byte, crc8_fold_u8. unfold is_u8; lia.
Qed.

(** C4.  On every span of bytes a [uint8_t] length can describe,
    [CalculateCRC8] returns a value, that value is the reference CRC-8
    (polynomial 0x07, initial value 0, most significant bit first, no
    reflection), it does not depend on the memory after the span, and
    resuming the loop over [b2] from the checksum of [b1] gives the checksum
    of [b1 ++ b2]. *)
Theorem CalculateCRC8_is_crc8 (b1 b2 junk : list Z) :
  Forall is_u8 b1 -> Forall is_u8 b2 ->
  Z.of_nat (length (b1 ++ b2)) <= 255 ->
  CalculateCRC8 (b1 ++ b2) (Z.of_nat (length (b1 ++ b2)))
    = Some (Reference.crc8 (b1 ++ b2))
  /\ CalculateCRC8 ((b1 ++ b2) ++ junk) (Z.of_nat (length (b1 ++ b2)))
    = CalculateCRC8 (b1 ++ b2) (Z.of_nat (length (b1 ++ b2)))
  /\ exists c1,
      CalculateCRC8 b1 (Z.of_nat (length b1)) = Some c1
      /\ crc8_loop b2 0 (length b2) c1
         = CalculateCRC8 (b1 ++ b2) (Z.of_nat (length (b1 ++ b2))).
Proof.
  intros H1 H2 _.
  pose proof (CalculateCRC8_span (b1 ++ b2) []) as Hall.
  rewrite app_nil_r in Hall.
  split; [|split].
  - rewrite Hall. f_equal. apply crc8_fold_is_reference.
    apply Forall_app; split; assumption.
  - rewrite Hall. apply CalculateCRC8_span.
  - exists (crc8_fold 0 b1). split.
    + pose proof (CalculateCRC8_span b1 []) as Hb1.
      now rewrite app_nil_r in Hb1.
    + rewrite Hall, crc8_fold_app.
      rewrite (crc8_loop_fold b2 (length b2) 0%nat) by lia.
      now rewrite drop_0, firstn_all.
Qed.

Lemma CalculateCRC8_is_crc8_witness :
  CalculateCRC8 ([1; 2] ++ [3]) 3 = Some (Reference.crc8 [1; 2; 3])
  /\ CalculateCRC8 (([1; 2] ++ [3]) ++ [9; 9]) 3 = CalculateCRC8 ([1; 2] ++ [3]) 3
  /\ exists c1,
      CalculateCRC8 [1; 2] 2 = Some c1
      /\ crc8_loop [3] 0 1 c1 = CalculateCRC8 ([1; 2] ++ [3]) 3.
Proof.
  apply (CalculateCRC8_is_crc8 [1; 2] [3] [9; 9]).
  - repeat constructor; unfold is_u8; lia.
  - repeat constructor; unfold is_u8; lia.
  - simpl; lia.
Defined.

(** ** The dispatcher *)

Lemma reply_OK : reply OK_text 3 = [UartTransmit (bytes_of_string OK_text)].
Proof. reflexivity. Qed.

Lemma reply_ERR : reply ERR_text 4 = [UartTransmit (bytes_of_string ERR_text)].
Proof. reflexivity. Qed.

Lemma load_in_bounds (a : list Z) (i : Z) :
  0 <= i < Z.of_nat (length a) -> exists v, load a i = Some v.
Proof.
  intros Hi. rewrite load_lookup by lia.
  apply lookup_lt_is_Some_2. lia.
Qed.

Lemma dispatch_event_defined (eventId : Z) (data : list Z) :
  data <> [] ->
  exists acts, dispatch_event eventId data = Some acts
               /\ filter is_reply acts = [].
Proof.
  intros Hne. destruct data as [|d0 data]; [congruence|].
  unfold dispatch_event. change (load (d0 :: data) 0) with (Some d0).
  destruct (eventId =? EVENT_DISPLAY); [eexists; split; reflexivity|].
  destruct (eventId =? EVENT_SERVO); [eexists; split; reflexivity|].
  destruct (eventId =? EVENT_LP_STATUS);
    [simpl; destruct (d0 =? 1); eexists; split; reflexivity|].
  destruct (eventId =? EVENT_PARK_FULL);
    [simpl; destruct (d0 =? 1); eexists; split; reflexivity|].
  eexists; split; reflexivity.
Qed.

(** The checksum the dispatcher recomputes is the fold of the loop body over
    the [len] cells that start at the event id. *)
Lemma calculatedCRC_span (buffer : list Z) (len : Z) :
  assembled buffer len ->
  calculatedCRC buffer = Some (crc8_fold 0 (take (Z.to_nat len) (drop 2 buffer))).
Proof.
  intros (Hsz & Hlen & H0 & Hfit). unfold BUFFER_SIZE in *.
  unfold calculatedCRC. rewrite Hlen. simpl. unfold CalculateCRC8.
  rewrite (crc8_loop_fold _ _ 0%nat) by (rewrite length_drop; lia).
  now rewrite drop_0.
Qed.

Lemma receivedCRC_defined (buffer : list Z) (len : Z) :
  assembled buffer len -> exists rx, receivedCRC buffer = Some rx.
Proof.
  intros (Hsz & Hlen & H0 & Hfit). unfold BUFFER_SIZE in *.
  unfold receivedCRC. rewrite Hlen. simpl. apply load_in_bounds. lia.
Qed.

(** [ProcessReceivedPacket] on an assembled frame, by cases on the
    comparison of line 175. *)
Lemma ProcessReceivedPacket_cases (buffer : list Z) (len : Z) :
  assembled buffer len ->
  exists rx calc eventId acts,
    receivedCRC buffer = Some rx
    /\ calculatedCRC buffer = Some calc
    /\ load buffer 2 = Some eventId
    /\ dispatch_event eventId (drop 3 buffer) = Some acts
    /\ filter is_reply acts = []
    /\ ProcessReceivedPacket buffer
       = Some (if rx =? calc
               then UartTransmit (bytes_of_string OK_text) :: acts
               else [UartTransmit (bytes_of_string ERR_text)]).
Proof.
  intros Hasm.
  destruct (receivedCRC_defined _ _ Hasm) as [rx Hrx].
  pose proof (calculatedCRC_span _ _ Hasm) as Hcalc.
  destruct Hasm as (Hsz & Hlen & H0 & Hfit). unfold BUFFER_SIZE in *.
  destruct (load_in_bounds buffer 2 ltac:(lia)) as [eventId Hev].
  destruct (dispatch_event_defined eventId (drop 3 buffer)) as (acts & Hacts & Hnr).
  { intros Hnil. apply (f_equal length) in Hnil.
    rewrite length_drop in Hnil. simpl in Hnil. lia. }
  exists rx, (crc8_fold 0 (take (Z.to_nat len) (drop 2 buffer))), eventId, acts.
  repeat split; try assumption.
  unfold ProcessReceivedPacket.
  unfold receivedCRC in Hrx. unfold calculatedCRC in Hcalc.
  rewrite Hlen in *. simpl in *. rewrite Hev. simpl.
  rewrite Hrx. simpl. rewrite Hcalc. simpl.
  destruct (rx =? _); [|reflexivity].
  rewrite Hacts. reflexivity.
Qed.

(** C5.  On an assembled frame the dispatcher transmits exactly one reply:
    when the received and the recomputed checksum differ, the reply is the
    text ERR followed by a line feed and nothing else happens (no compare
    write, no display write); when they agree, the reply is the text OK
    followed by a line feed, and whatever follows it is not a transmission. *)
Theorem dispatcher_reply (buffer : list Z) (len : Z) :
  assembled buffer len ->
  exists rx calc evs,
    receivedCRC buffer = Some rx
    /\ calculatedCRC buffer = Some calc
    /\ ProcessReceivedPacket buffer = Some evs
    /\ length (filter is_reply evs) = 1%nat
    /\ (rx <> calc ->
        evs = [UartTransmit (bytes_of_string ERR_text)]
        /\ filter is_actuator_write evs = []
        /\ filter is_display_write evs = [])
    /\ (rx = calc ->
        exists acts,
          evs = UartTransmit (bytes_of_string OK_text) :: acts
          /\ filter is_reply acts = []).
Proof.
  intros Hasm.
  destruct (ProcessReceivedPacket_cases _ _ Hasm)
    as (rx & calc & eventId & acts & Hrx & Hcalc & _ & _ & Hnr & Hrun).
  exists rx, calc.
  destruct (Z.eqb_spec rx calc) as [Heq|Hne].
  - exists (UartTransmit (bytes_of_string OK_text) :: acts).
    repeat split; try assumption.
    + change (length (UartTransmit (bytes_of_string OK_text)
                        :: filter is_reply acts) = 1%nat).
      now rewrite Hnr.
    + contradiction.
    + contradiction.
    + contradiction.
    + intros _. exists acts. split; [reflexivity|assumption].
  - exists [UartTransmit (bytes_of_string ERR_text)].
    repeat split; try assumption. contradiction.
Qed.

Lemma dispatcher_reply_witness :
  let buffer := [170; 2; 3; 1; 57] ++ repeat 0 27 in
  exists rx calc evs,
    receivedCRC buffer = Some rx
    /\ calculatedCRC buffer = Some calc
    /\ ProcessReceivedPacket buffer = Some evs
    /\ length (filter is_reply evs) = 1%nat
    /\ (rx <> calc ->
        evs = [UartTransmit (bytes_of_string ERR_text)]
        /\ filter is_actuator_write evs = []
        /\ filter is_display_write evs = [])
    /\ (rx = calc ->
        exists acts,
          evs = UartTransmit (bytes_of_string OK_text) :: acts
          /\ filter is_reply acts = []).
Proof.
  apply (dispatcher_reply ([170; 2; 3; 1; 57] ++ repeat 0 27) 2).
  unfold assembled. repeat split; try reflexivity; vm_compute; congruence.
Defined.

(** ** The encoder *)

Lemma send_copy_spec (ds : list Z) :
  forall dpre pre junk : list Z,
    (length ds <= length junk)%nat ->
    Z.of_nat (length pre + length ds) <= 255 ->
    send_copy (dpre ++ ds) (pre ++ junk)
      (Z.of_nat (length dpre)) (Z.of_nat (length pre)) (length ds)
    = Some (pre ++ ds ++ drop (length ds) junk,
            Z.of_nat (length pre + length ds)).
Proof.
  induction ds as [|x ds IH]; intros dpre pre junk Hroom Hidx; simpl.
  - rewrite drop_0, Nat.add_0_r. reflexivity.
  - destruct junk as [|j junk]; [simpl in Hroom; lia|].
    rewrite load_nat, list_lookup_middle by reflexivity. simpl.
    rewrite store_in_bounds by (rewrite length_app; simpl; lia).
    rewrite Nat2Z.id, insert_middle. simpl.
    replace (Z.of_nat (length dpre) + 1) with (Z.of_nat (length (dpre ++ [x])))
      by (rewrite length_app; simpl; lia).
    replace (u8 (Z.of_nat (length pre) + 1)) with (Z.of_nat (length (pre ++ [x]))).
    2:{ rewrite length_app. simpl. unfold u8.
        rewrite Z.mod_small; simpl in Hidx; lia. }
    replace (dpre ++ x :: ds) with ((dpre ++ [x]) ++ ds)
      by now rewrite <- app_assoc.
    replace (pre ++ x :: junk) with ((pre ++ [x]) ++ junk)
      by now rewrite <- app_assoc.
    rewrite IH.
    + rewrite <- app_assoc. simpl. do 2 f_equal.
      rewrite length_app. simpl. lia.
    + simpl in Hroom. lia.
    + rewrite length_app. simpl in *. lia.
Qed.

Lemma SendPacket_bytes (eventId : Z) (data : list Z) :
  Z.of_nat (length data) <= BUFFER_SIZE - 4 ->
  SendPacket eventId data (Z.of_nat (length data))
  = Some [UartTransmit (frame_bytes eventId data)].
Proof.
  unfold BUFFER_SIZE. intros Hn.
  set (n := length data) in *.
  unfold SendPacket.
  change (repeat 0 (Z.to_nat BUFFER_SIZE)) with ([0; 0; 0] ++ repeat 0 29).
  assert (Hu8 : u8 (Z.of_nat n + 1) = Z.of_nat n + 1)
    by (unfold u8; apply Z.mod_small; lia).
  rewrite Hu8.
  rewrite store_in_bounds by (simpl; lia). simpl.
  rewrite Nat2Z.id.
  change (send_copy data _ 0 3 n)
    with (send_copy ([] ++ data)
            ([PACKET_START; Z.of_nat n + 1; eventId] ++ repeat 0 29)
            (Z.of_nat (length (@nil Z)))
            (Z.of_nat (length [PACKET_START; Z.of_nat n + 1; eventId]))
            (length data)).
  rewrite send_copy_spec.
  2:{ rewrite repeat_length. fold n. lia. }
  2:{ fold n. simpl. lia. }
  fold n. cbn [mbind option_bind length].
  assert (Htail : exists j rest, drop n (repeat 0 29) = j :: rest).
  { destruct (drop n (repeat 0 29)) as [|j rest] eqn:E; [|eauto].
    apply (f_equal length) in E.
    rewrite length_drop, repeat_length in E. simpl in E. lia. }
  destruct Htail as (j & rest & ->).
  change (drop 2 ([PACKET_START; Z.of_nat n + 1; eventId] ++ data ++ j :: rest))
    with ((eventId :: data) ++ j :: rest).
  replace (Z.of_nat n + 1) with (Z.of_nat (length (eventId :: data))) at 1
    by (simpl; fold n; lia).
  rewrite CalculateCRC8_span. cbn [mbind option_bind].
  set (hdr := [PACKET_START; Z.of_nat n + 1; eventId]).
  set (crc := crc8_fold 0 (eventId :: data)).
  rewrite (app_assoc hdr data (j :: rest)).
  assert (Hlen : length (hdr ++ data) = (3 + n)%nat)
    by (rewrite length_app; reflexivity).
  rewrite store_in_bounds by (rewrite length_app, Hlen; simpl; lia).
  rewrite Nat2Z.id, <- Hlen, insert_middle. cbn [mbind option_bind].
  replace (Z.to_nat (Z.of_nat (length (hdr ++ data)) + 1))
    with (length ((hdr ++ data) ++ [crc]))
    by (rewrite (length_app (hdr ++ data)); simpl; lia).
  replace ((hdr ++ data) ++ crc :: rest) with (((hdr ++ data) ++ [crc]) ++ rest)
    by now rewrite <- (app_assoc (hdr ++ data)).
  rewrite take_app_length.
  unfold frame_bytes. fold n hdr crc. now rewrite <- app_assoc.
Qed.

(** The packet for the display text Ready. *)
Example SendPacket_Ready :
  SendPacket EVENT_DISPLAY (bytes_of_string "Ready") 5
  = Some [UartTransmit [0xAA; 0x06; 0x01; 0x52; 0x65; 0x61; 0x64; 0x79; 0x6B]].
Proof. vm_compute. reflexivity. Qed.

(** A payload of 29 bytes needs cell 32 of the local array. *)
Example SendPacket_29_bytes :
  SendPacket EVENT_DISPLAY (repeat 1 29) 29 = None.
Proof. vm_compute. reflexivity. Qed.

(** ** The decoder, one byte at a time *)

Lemma callback_idle_other (d : decoder) (rx : Z) :
  packetState d = 0 -> rx <> PACKET_START ->
  HAL_UART_RxCpltCallback USART2 rx d = Some (d, None).
Proof.
  intros Hst Hrx. unfold HAL_UART_RxCpltCallback. simpl. rewrite Hst. simpl.
  apply Z.eqb_neq in Hrx. now rewrite Hrx.
Qed.

Lemma callback_idle_marker (d : decoder) :
  packetState d = 0 -> packetBuffer d <> [] ->
  HAL_UART_RxCpltCallback USART2 PACKET_START d
  = Some (Decoder (<[0%nat := PACKET_START]> (packetBuffer d)) 1 1
            (packetLength d), None).
Proof.
  intros Hst Hbuf. unfold HAL_UART_RxCpltCallback. simpl. rewrite Hst. simpl.
  rewrite store_in_bounds; [reflexivity|].
  destruct (packetBuffer d); [congruence|simpl; lia].
Qed.

Lemma callback_length (d : decoder) (rx : Z) :
  packetState d = 1 ->
  0 <= packetIndex d < Z.of_nat (length (packetBuffer d)) ->
  HAL_UART_RxCpltCallback USART2 rx d
  = Some (Decoder (<[Z.to_nat (packetIndex d) := rx]> (packetBuffer d))
            (u8 (packetIndex d + 1)) 2 rx, None).
Proof.
  intros Hst Hidx. unfold HAL_UART_RxCpltCallback. simpl. rewrite Hst. simpl.
  now rewrite store_in_bounds.
Qed.

Lemma callback_payload (d : decoder) (rx : Z) :
  packetState d = 2 ->
  0 <= packetIndex d < Z.of_nat (length (packetBuffer d)) ->
  HAL_UART_RxCpltCallback USART2 rx d
  = let buf := <[Z.to_nat (packetIndex d) := rx]> (packetBuffer d) in
    if u8 (packetIndex d + 1) >=? packetLength d + 3
    then evs ← ProcessReceivedPacket buf;
         Some (Decoder buf 0 0 (packetLength d), Some evs)
    else Some (Decoder buf (u8 (packetIndex d + 1)) 2 (packetLength d), None).
Proof.
  intros Hst Hidx. unfold HAL_UART_RxCpltCallback. simpl. rewrite Hst. simpl.
  now rewrite store_in_bounds.
Qed.

Lemma callback_overflow (d : decoder) (rx : Z) :
  packetState d = 1 \/ packetState d = 2 ->
  Z.of_nat (length (packetBuffer d)) <= packetIndex d ->
  HAL_UART_RxCpltCallback USART2 rx d = None.
Proof.
  intros [Hst|Hst] Hidx; unfold HAL_UART_RxCpltCallback; simpl;
    rewrite Hst; simpl; now rewrite store_out_of_bounds.
Qed.

Lemma receive_app (a b : list Z) :
  forall d,
    receive (a ++ b) d
    = '(d1, o1) ← receive a d;
      '(d2, o2) ← receive b d1;
      Some (d2, o1 ++ o2).
Proof.
  induction a as [|x a IH]; intros d; simpl.
  - destruct (receive b d) as [[d2 o2]|]; reflexivity.
  - destruct (HAL_UART_RxCpltCallback USART2 x d) as [[d1 out]|]; [|reflexivity].
    simpl. rewrite IH.
    destruct (receive a d1) as [[d1' o1]|]; [|reflexivity]. simpl.
    destruct (receive b d1') as [[d2 o2]|]; [|reflexivity]. simpl.
    now rewrite app_assoc.
Qed.

(** Payload bytes that do not complete the frame are stored one after the
    other and nothing is dispatched. *)
Lemma receive_payload (bs : list Z) :
  forall (pre junk : list Z) (len : Z),
    (length bs <= length junk)%nat ->
    Z.of_nat (length pre + length bs) < len + 3 ->
    Z.of_nat (length pre + length bs) <= 255 ->
    receive bs (Decoder (pre ++ junk) (Z.of_nat (length pre)) 2 len)
    = Some (Decoder (pre ++ bs ++ drop (length bs) junk)
              (Z.of_nat (length pre + length bs)) 2 len, []).
Proof.
  induction bs as [|x bs IH]; intros pre junk len Hroom Hmore Hidx.
  - simpl. rewrite drop_0, Nat.add_0_r. reflexivity.
  - destruct junk as [|j junk]; [simpl in Hroom; lia|].
    cbn [receive]. simpl length in *.
    rewrite callback_payload; [|reflexivity|simpl; rewrite length_app; simpl; lia].
    cbn [packetIndex packetBuffer packetLength].
    assert (Hu8 : u8 (Z.of_nat (length pre) + 1) = Z.of_nat (length (pre ++ [x]))).
    { rewrite length_app. simpl. unfold u8. rewrite Z.mod_small; lia. }
    rewrite Hu8. cbv zeta.
    destruct (Z.geb_spec (Z.of_nat (length (pre ++ [x]))) (len + 3)) as [Hge|_].
    { rewrite length_app in Hge. simpl in Hge. lia. }
    rewrite Nat2Z.id, insert_middle. cbn [mbind option_bind].
    replace (pre ++ x :: junk) with ((pre ++ [x]) ++ junk)
      by now rewrite <- app_assoc.
    rewrite IH.
    + cbn [mbind option_bind from_option app]. rewrite <- app_assoc. simpl.
      do 3 f_equal. rewrite length_app. simpl. lia.
    + simpl in Hroom. lia.
    + rewrite length_app. simpl. lia.
    + rewrite length_app. simpl. lia.
Qed.

(** A start marker, a length byte [len] that fits the array, [len] further
    bytes and one trailing byte, received from the idle state: nothing is
    dispatched before the trailing byte, which hands the array to
    [ProcessReceivedPacket] once and returns the decoder to the idle state. *)
Lemma receive_frame (d : decoder) (len : Z) (body : list Z) (rx : Z) :
  packetState d = 0 ->
  Z.of_nat (length (packetBuffer d)) = BUFFER_SIZE ->
  Z.of_nat (length body) = len ->
  len + 3 <= BUFFER_SIZE ->
  exists rest evs dmid,
    let buf := [PACKET_START; len] ++ body ++ rx :: rest in
    assembled buf len
    /\ ProcessReceivedPacket buf = Some evs
    /\ receive ([PACKET_START; len] ++ body) d = Some (dmid, [])
    /\ packetState dmid = 2
    /\ receive ([PACKET_START; len] ++ body ++ [rx]) d
       = Some (Decoder buf 0 0 len, [evs]).
Proof.
  unfold BUFFER_SIZE. intros Hst Hsz Hbody Hfit.
  destruct d as [buf0 idx0 st0 len0]. simpl in Hst, Hsz. subst st0.
  destruct buf0 as [|b0 [|b1 rest30]]; try (simpl in Hsz; lia).
  assert (H30 : length rest30 = 30%nat) by (simpl in Hsz; lia).
  destruct (drop (length body) rest30) as [|j rest] eqn:Hdrop.
  { apply (f_equal length) in Hdrop. rewrite length_drop in Hdrop.
    simpl in Hdrop. lia. }
  assert (Hrest : (length rest = 29 - length body)%nat).
  { apply (f_equal length) in Hdrop. rewrite length_drop in Hdrop.
    simpl in Hdrop. lia. }
  set (buf := [PACKET_START; len] ++ body ++ rx :: rest).
  assert (Hasm : assembled buf len).
  { unfold assembled, BUFFER_SIZE, buf. repeat split; try lia.
    rewrite length_app, length_app. simpl. lia. }
  destruct (ProcessReceivedPacket_cases _ _ Hasm)
    as (rxc & calc & eventId & acts & _ & _ & _ & _ & _ & Hrun).
  assert (Hpre :
    receive ([PACKET_START; len] ++ body) (Decoder (b0 :: b1 :: rest30) idx0 0 len0)
    = Some (Decoder ([PACKET_START; len] ++ body ++ j :: rest)
              (Z.of_nat (2 + length body)) 2 len, [])).
  { cbn [receive app].
    rewrite callback_idle_marker by (simpl; congruence).
    cbn [mbind option_bind packetBuffer packetLength].
    rewrite callback_length by (simpl; lia).
    cbn [mbind option_bind packetBuffer packetIndex].
    change (<[Z.to_nat 1:=len]> (<[0%nat:=PACKET_START]> (b0 :: b1 :: rest30)))
      with ([PACKET_START; len] ++ rest30).
    change (u8 (1 + 1)) with (Z.of_nat (length [PACKET_START; len])).
    rewrite receive_payload by (simpl; lia).
    rewrite Hdrop. reflexivity. }
  exists rest. eexists. eexists. cbv zeta. fold buf.
  split; [exact Hasm|]. split; [exact Hrun|]. split; [exact Hpre|].
  split; [reflexivity|].
  rewrite (app_assoc [PACKET_START; len] body [rx]).
  rewrite receive_app, Hpre. cbn [mbind option_bind receive].
  rewrite (app_assoc [PACKET_START; len] body (j :: rest)).
  assert (Hlen : length ([PACKET_START; len] ++ body) = (2 + length body)%nat)
    by (rewrite length_app; reflexivity).
  rewrite callback_payload;
    [|reflexivity|cbn [packetIndex packetBuffer];
                  rewrite length_app, Hlen; simpl; lia].
  cbn [packetIndex packetBuffer packetLength]. cbv zeta.
  rewrite Nat2Z.id, <- Hlen, insert_middle.
  rewrite <- (app_assoc [PACKET_START; len] body (rx :: rest)). fold buf.
  assert (Hu8 : u8 (Z.of_nat (length ([PACKET_START; len] ++ body)) + 1) = len + 3).
  { rewrite Hlen. unfold u8. rewrite Z.mod_small; lia. }
  rewrite Hu8.
  destruct (Z.geb_spec (len + 3) (len + 3)) as [_|Hlt]; [|lia].
  rewrite Hrun. reflexivity.
Qed.

(** Where the dispatcher finds the fields of a frame laid out in the array. *)
Lemma frame_layout (len : Z) (body : list Z) (rx : Z) (rest : list Z) :
  Z.of_nat (length body) = len ->
  let buf := [PACKET_START; len] ++ body ++ rx :: rest in
  receivedCRC buf = Some rx
  /\ calculatedCRC buf = Some (crc8_fold 0 body).
Proof.
  intros Hlen buf. unfold receivedCRC, calculatedCRC.
  change (load buf 1) with (Some len). cbn [mbind option_bind]. split.
  - rewrite load_lookup by lia.
    replace (Z.to_nat (2 + len)) with (length ([PACKET_START; len] ++ body))
      by (rewrite length_app; simpl; lia).
    unfold buf. rewrite app_assoc.
    now apply list_lookup_middle.
  - change (drop 2 buf) with (body ++ rx :: rest).
    rewrite <- Hlen. apply CalculateCRC8_span.
Qed.

(** C1.  For every event id and every payload of at most [BUFFER_SIZE - 4]
    bytes, [SendPacket] transmits one packet; received byte by byte from the
    idle state, that packet is handed to [ProcessReceivedPacket] exactly
    once, at its last byte; the received and the recomputed checksum agree,
    so the reply is OK; the array then holds the original length, event id
    and payload; and the decoder is idle again. *)
Theorem round_trip (eventId : Z) (data : list Z) (d : decoder) :
  Z.of_nat (length data) <= BUFFER_SIZE - 4 ->
  packetState d = 0 ->
  Z.of_nat (length (packetBuffer d)) = BUFFER_SIZE ->
  exists pkt d' acts,
    SendPacket eventId data (Z.of_nat (length data)) = Some [UartTransmit pkt]
    /\ receive pkt d
       = Some (d', [UartTransmit (bytes_of_string OK_text) :: acts])
    /\ (exists dmid, receive (removelast pkt) d = Some (dmid, [])
                     /\ packetState dmid = 2)
    /\ packetState d' = 0
    /\ ProcessReceivedPacket (packetBuffer d')
       = Some (UartTransmit (bytes_of_string OK_text) :: acts)
    /\ (exists crc, receivedCRC (packetBuffer d') = Some crc
                    /\ calculatedCRC (packetBuffer d') = Some crc)
    /\ load (packetBuffer d') 1 = Some (Z.of_nat (length data) + 1)
    /\ load (packetBuffer d') 2 = Some eventId
    /\ take (length data) (drop 3 (packetBuffer d')) = data
    /\ dispatch_event eventId (drop 3 (packetBuffer d')) = Some acts.
Proof.
  intros Hn Hst Hsz.
  set (len := Z.of_nat (length data) + 1).
  set (crc := crc8_fold 0 (eventId :: data)).
  assert (Hbody : Z.of_nat (length (eventId :: data)) = len)
    by (unfold len; simpl; lia).
  destruct (receive_frame d len (eventId :: data) crc Hst Hsz Hbody)
    as (rest & evs & dmid & Hasm & Hrun & Hpre & Hmid & Hall).
  { unfold len, BUFFER_SIZE in *. lia. }
  cbv zeta in *.
  set (buf := [PACKET_START; len] ++ (eventId :: data) ++ crc :: rest) in *.
  destruct (frame_layout len (eventId :: data) crc rest Hbody) as [Hrx Hcalc].
  fold buf crc in Hrx, Hcalc.
  destruct (ProcessReceivedPacket_cases _ _ Hasm)
    as (rx' & calc' & eventId' & acts & Hrx' & Hcalc' & Hev & Hacts & _ & Hrun').
  rewrite Hrx in Hrx'. rewrite Hcalc in Hcalc'.
  injection Hrx' as <-. injection Hcalc' as <-.
  change (load buf 2) with (Some eventId) in Hev. injection Hev as <-.
  rewrite Z.eqb_refl in Hrun'. rewrite Hrun' in Hrun. injection Hrun as <-.
  assert (Hpkt : frame_bytes eventId data
                 = [PACKET_START; len] ++ (eventId :: data) ++ [crc]) by reflexivity.
  exists (frame_bytes eventId data), (Decoder buf 0 0 len), acts.
  split; [apply SendPacket_bytes, Hn|].
  split; [rewrite Hpkt; exact Hall|].
  split.
  { exists dmid. split; [|exact Hmid].
    rewrite Hpkt, (app_assoc [PACKET_START; len]), removelast_last.
    exact Hpre. }
  split; [reflexivity|].
  split; [exact Hrun'|].
  split; [exists crc; split; assumption|].
  split; [reflexivity|].
  split; [reflexivity|].
  split; [|exact Hacts].
  change (drop 3 buf) with (data ++ crc :: rest). apply take_app_length.
Qed.

Lemma round_trip_witness :
  exists pkt d' acts,
    SendPacket 2 [200] 1 = Some [UartTransmit pkt]
    /\ receive pkt decoder_init
       = Some (d', [UartTransmit (bytes_of_string OK_text) :: acts])
    /\ (exists dmid, receive (removelast pkt) decoder_init = Some (dmid, [])
                     /\ packetState dmid = 2)
    /\ packetState d' = 0
    /\ ProcessReceivedPacket (packetBuffer d')
       = Some (UartTransmit (bytes_of_string OK_text) :: acts)
    /\ (exists crc, receivedCRC (packetBuffer d') = Some crc
                    /\ calculatedCRC (packetBuffer d') = Some crc)
    /\ load (packetBuffer d') 1 = Some 2
    /\ load (packetBuffer d') 2 = Some 2
    /\ take 1 (drop 3 (packetBuffer d')) = [200]
    /\ dispatch_event 2 (drop 3 (packetBuffer d')) = Some acts.
Proof.
  apply (round_trip 2 [200] decoder_init).
  - vm_compute. congruence.
  - reflexivity.
  - reflexivity.
Defined.

(** ** The decoder's invariant *)

Lemma decoder_init_wf : decoder_wf decoder_init.
Proof. split; [reflexivity|left; reflexivity]. Qed.

(** A payload byte, when the write index is inside the array. *)
Lemma callback_payload_wf (d : decoder) (rx : Z) :
  decoder_wf d -> packetState d = 2 -> packetIndex d < BUFFER_SIZE ->
  let buf := <[Z.to_nat (packetIndex d) := rx]> (packetBuffer d) in
  (packetIndex d + 1 < packetLength d + 3
   /\ HAL_UART_RxCpltCallback USART2 rx d
      = Some (Decoder buf (packetIndex d + 1) 2 (packetLength d), None))
  \/ (packetIndex d + 1 = packetLength d + 3
      /\ assembled buf (packetLength d)
      /\ exists evs,
          ProcessReceivedPacket buf = Some evs
          /\ HAL_UART_RxCpltCallback USART2 rx d
             = Some (Decoder buf 0 0 (packetLength d), Some evs)).
Proof.
  intros [Hsz Hwf] Hst Hidx buf.
  destruct Hwf as [H0|[[H1 _]|(_ & Hrange & Hlt & Hlen)]]; try congruence.
  unfold BUFFER_SIZE in *.
  rewrite callback_payload by (assumption || lia). cbv zeta. fold buf.
  assert (Hu8 : u8 (packetIndex d + 1) = packetIndex d + 1)
    by (unfold u8; rewrite Z.mod_small; lia).
  rewrite Hu8.
  destruct (Z.geb_spec (packetIndex d + 1) (packetLength d + 3)) as [Hge|Hless].
  - right. split; [lia|].
    assert (Hasm : assembled buf (packetLength d)).
    { unfold assembled, BUFFER_SIZE, buf. rewrite length_insert.
      repeat split; try lia.
      rewrite load_lookup in * by lia.
      rewrite list_lookup_insert_ne by lia. exact Hlen. }
    split; [exact Hasm|].
    destruct (ProcessReceivedPacket_cases _ _ Hasm)
      as (? & ? & ? & ? & _ & _ & _ & _ & _ & Hrun).
    eexists. split; [exact Hrun|]. rewrite Hrun. reflexivity.
  - left. split; [lia|reflexivity].
Qed.

Lemma callback_preserves_wf (d d' : decoder) (rx : Z) (out : option (list event)) :
  decoder_wf d -> 0 <= rx ->
  HAL_UART_RxCpltCallback USART2 rx d = Some (d', out) ->
  decoder_wf d'.
Proof.
  intros Hwf Hrx Hstep. pose proof Hwf as [Hsz Hcases].
  unfold BUFFER_SIZE in *.
  destruct Hcases as [H0|[[H1 Hidx]|(H2 & Hrange & Hlt & Hlen)]].
  - destruct (Z.eq_dec rx PACKET_START) as [->|Hne].
    + rewrite callback_idle_marker in Hstep; [|assumption|].
      2:{ destruct (packetBuffer d); [simpl in Hsz; lia|congruence]. }
      injection Hstep as <- <-. split; simpl.
      * rewrite length_insert. exact Hsz.
      * right; left. split; reflexivity.
    + rewrite callback_idle_other in Hstep by assumption.
      injection Hstep as <- <-. exact Hwf.
  - rewrite callback_length in Hstep by (assumption || lia).
    injection Hstep as <- <-. rewrite Hidx. split; simpl.
    + rewrite length_insert. exact Hsz.
    + right; right. unfold BUFFER_SIZE. repeat split; try (vm_compute; congruence).
      * change (u8 (1 + 1)) with 2. lia.
      * rewrite load_lookup by lia.
        apply list_lookup_insert_eq. lia.
  - destruct (Z_lt_le_dec (packetIndex d) 32) as [Hin|Hout].
    + destruct (callback_payload_wf d rx Hwf H2 Hin)
        as [[Hmore Heq]|(Hdone & Hasm & evs & _ & Heq)];
        rewrite Heq in Hstep; injection Hstep as <- <-; split; simpl;
        try (rewrite length_insert; exact Hsz).
      * right; right. unfold BUFFER_SIZE. repeat split; try lia.
        rewrite load_lookup in * by lia.
        rewrite list_lookup_insert_ne by lia. exact Hlen.
      * left; reflexivity.
    + rewrite callback_overflow in Hstep by first [right; assumption | lia].
      discriminate.
Qed.

(** C9.  A start marker that arrives while the length or the payload is
    being read is handled by position, as any other byte is: it is stored at
    the write index, the index and the state move as they do for any byte
    (the frame completes for the marker exactly when it completes for the
    other byte), the length is taken from it only in the length position,
    and the decoder never goes back to reading a length.  When the write
    index has left the array, the marker fails as any other byte does. *)
Theorem start_marker_is_positional (d : decoder) (rx : Z) :
  decoder_wf d ->
  packetState d = 1 \/ packetState d = 2 ->
  match HAL_UART_RxCpltCallback USART2 PACKET_START d,
        HAL_UART_RxCpltCallback USART2 rx d with
  | Some (dm, om), Some (dr, or) =>
      packetBuffer dm
        = <[Z.to_nat (packetIndex d) := PACKET_START]> (packetBuffer d)
      /\ packetBuffer dr = <[Z.to_nat (packetIndex d) := rx]> (packetBuffer d)
      /\ packetIndex dm = packetIndex dr
      /\ packetState dm = packetState dr
      /\ (is_Some om <-> is_Some or)
      /\ packetState dm <> 1
      /\ (packetState d = 1 ->
          packetState dm = 2
          /\ packetLength dm = PACKET_START /\ packetLength dr = rx)
      /\ (packetState d = 2 ->
          packetLength dm = packetLength d /\ packetLength dr = packetLength d)
  | None, None => packetIndex d = BUFFER_SIZE
  | _, _ => False
  end.
Proof.
  intros Hwf Hst. pose proof Hwf as [Hsz Hcases]. unfold BUFFER_SIZE in *.
  destruct Hcases as [H0|[[H1 Hidx]|(H2 & Hrange & Hlt & Hlen)]].
  - destruct Hst; congruence.
  - rewrite !callback_length by (assumption || lia). simpl.
    repeat split; intros; try congruence; try (destruct H as [? H]; discriminate).
  - destruct (Z_lt_le_dec (packetIndex d) 32) as [Hin|Hout].
    + destruct (callback_payload_wf d PACKET_START Hwf H2 Hin)
        as [[Hm Em]|(Hm & _ & em & _ & Em)];
      destruct (callback_payload_wf d rx Hwf H2 Hin)
        as [[Hr Er]|(Hr & _ & er & _ & Er)];
      try lia; rewrite Em, Er; simpl;
      repeat split; intros; try congruence; eauto;
        try (destruct H as [? H]; discriminate).
    + rewrite !callback_overflow by first [right; assumption | lia].
      unfold BUFFER_SIZE in *. lia.
Qed.

Lemma start_marker_is_positional_witness :
  let d := Decoder ([170; 5; 1; 2] ++ repeat 0 28) 4 2 5 in
  match HAL_UART_RxCpltCallback USART2 PACKET_START d,
        HAL_UART_RxCpltCallback USART2 7 d with
  | Some (dm, om), Some (dr, or) =>
      packetBuffer dm
        = <[Z.to_nat (packetIndex d) := PACKET_START]> (packetBuffer d)
      /\ packetBuffer dr = <[Z.to_nat (packetIndex d) := 7]> (packetBuffer d)
      /\ packetIndex dm = packetIndex dr
      /\ packetState dm = packetState dr
      /\ (is_Some om <-> is_Some or)
      /\ packetState dm <> 1
      /\ (packetState d = 1 ->
          packetState dm = 2
          /\ packetLength dm = PACKET_START /\ packetLength dr = 7)
      /\ (packetState d = 2 ->
          packetLength dm = packetLength d /\ packetLength dr = packetLength d)
  | None, None => packetIndex d = BUFFER_SIZE
  | _, _ => False
  end.
Proof.
  apply (start_marker_is_positional
           (Decoder ([170; 5; 1; 2] ++ repeat 0 28) 4 2 5) 7).
  - split; [reflexivity|]. right; right.
    repeat split; try reflexivity; vm_compute; congruence.
  - right; reflexivity.
Defined.

(** ** Declared lengths that do not fit the array *)

(** The claim that a length byte too large for the array sends the decoder
    back to the idle state fails on the code: after the marker and the length
    byte 255 the decoder is reading the payload, the marker that follows is
    stored as the first payload byte, and with a declared length of 30 the
    thirty-first byte after the length is written outside the array. *)
Lemma overflow_guard_counterexample :
  exists d1 d2 : decoder,
    255 + 3 > BUFFER_SIZE
    /\ receive [PACKET_START; 255] decoder_init = Some (d1, [])
    /\ packetState d1 = 2 /\ packetState d1 <> 0
    /\ receive [PACKET_START; 255; PACKET_START] decoder_init = Some (d2, [])
    /\ packetState d2 = 2 /\ packetIndex d2 = 3
    /\ load (packetBuffer d2) 2 = Some PACKET_START
    /\ receive (PACKET_START :: 30 :: repeat 7 31) decoder_init = None.
Proof.
  eexists. eexists.
  split; [vm_compute; reflexivity|].
  split; [vm_compute; reflexivity|].
  split; [reflexivity|]. split; [simpl; lia|].
  split; [vm_compute; reflexivity|].
  repeat split; reflexivity.
Qed.

(** C2, amended.  A length byte whose frame would not fit the array is
    taken like any other: it is stored in cell 1, inside the array, nothing
    is dispatched and nothing is transmitted, and the decoder goes on to read
    the payload; a start marker that follows is stored in cell 2 as the
    first payload byte and the decoder stays in the payload state. *)
Theorem oversized_length_is_accepted (d : decoder) (rx : Z) :
  packetState d = 1 ->
  packetIndex d = 1 ->
  Z.of_nat (length (packetBuffer d)) = BUFFER_SIZE ->
  BUFFER_SIZE < rx + 3 ->
  exists d1 d2 : decoder,
    HAL_UART_RxCpltCallback USART2 rx d = Some (d1, None)
    /\ packetState d1 = 2
    /\ packetIndex d1 = 2
    /\ packetLength d1 = rx
    /\ packetBuffer d1 = <[1%nat := rx]> (packetBuffer d)
    /\ length (packetBuffer d1) = length (packetBuffer d)
    /\ HAL_UART_RxCpltCallback USART2 PACKET_START d1 = Some (d2, None)
    /\ packetState d2 = 2
    /\ packetIndex d2 = 3
    /\ packetBuffer d2 = <[2%nat := PACKET_START]> (packetBuffer d1).
Proof.
  unfold BUFFER_SIZE. intros Hst Hidx Hsz Hbig.
  eexists. eexists.
  split.
  { rewrite callback_length by (assumption || lia). rewrite Hidx.
    change (u8 (1 + 1)) with 2. reflexivity. }
  cbn [packetState packetIndex packetLength packetBuffer].
  split; [reflexivity|]. split; [reflexivity|]. split; [reflexivity|].
  split; [reflexivity|]. split; [apply length_insert|].
  split.
  { rewrite callback_payload;
      [|reflexivity|cbn [packetIndex packetBuffer]; rewrite length_insert; lia].
    cbn [packetIndex packetBuffer packetLength]. cbv zeta.
    change (u8 (2 + 1)) with 3.
    destruct (Z.geb_spec 3 (rx + 3)) as [Hge|_]; [lia|]. reflexivity. }
  cbn [packetState packetIndex packetBuffer].
  repeat split; reflexivity.
Qed.

Lemma oversized_length_is_accepted_witness :
  let d := Decoder (PACKET_START :: repeat 0 31) 1 1 0 in
  exists d1 d2 : decoder,
    HAL_UART_RxCpltCallback USART2 200 d = Some (d1, None)
    /\ packetState d1 = 2
    /\ packetIndex d1 = 2
    /\ packetLength d1 = 200
    /\ packetBuffer d1 = <[1%nat := 200]> (packetBuffer d)
    /\ length (packetBuffer d1) = length (packetBuffer d)
    /\ HAL_UART_RxCpltCallback USART2 PACKET_START d1 = Some (d2, None)
    /\ packetState d2 = 2
    /\ packetIndex d2 = 3
    /\ packetBuffer d2 = <[2%nat := PACKET_START]> (packetBuffer d1).
Proof.
  apply (oversized_length_is_accepted
           (Decoder (PACKET_START :: repeat 0 31) 1 1 0) 200).
  - reflexivity.
  - reflexivity.
  - reflexivity.
  - unfold BUFFER_SIZE. lia.
Defined.

(** ** What the checksum covers *)

(** The claim that the checksum covers the length field fails on the code:
    the packet [SendPacket] builds for event 3 with payload 1 ends in 56,
    the checksum of the length, the event id and the payload is 238, and a
    frame that carries 238 is answered with ERR. *)
Lemma checksum_span_counterexample :
  exists pkt crc_with_length,
    SendPacket EVENT_CAR_DETECT [1] 1 = Some [UartTransmit pkt]
    /\ CalculateCRC8 (drop 1 pkt) (2 + 1) = Some crc_with_length
    /\ last pkt <> Some crc_with_length
    /\ ProcessReceivedPacket
         ([PACKET_START; 2; EVENT_CAR_DETECT; 1; crc_with_length] ++ repeat 0 27)
       = Some [UartTransmit (bytes_of_string ERR_text)].
Proof.
  exists [170; 2; 3; 1; 56], 238.
  split; [vm_compute; reflexivity|].
  split; [vm_compute; reflexivity|].
  split; [simpl; congruence|].
  vm_compute; reflexivity.
Qed.

(** C3, amended.  The checksum covers the event id and the payload, that
    is the [length] cells that start at the event id; the start marker and
    the length field are not covered.  The encoder appends the checksum of
    exactly that span, the dispatcher recomputes it over exactly that span,
    and the frame is acknowledged if and only if the trailing byte equals
    the recomputed value. *)
Theorem checksum_covers_event_and_payload
    (eventId : Z) (data buffer : list Z) (len : Z) :
  Z.of_nat (length data) <= BUFFER_SIZE - 4 ->
  assembled buffer len ->
  (exists crc,
      CalculateCRC8 (eventId :: data) (Z.of_nat (length data) + 1) = Some crc
      /\ SendPacket eventId data (Z.of_nat (length data))
         = Some [UartTransmit
                   ([PACKET_START; Z.of_nat (length data) + 1; eventId]
                      ++ data ++ [crc])])
  /\ (exists rx calc,
         load buffer (2 + len) = Some rx
         /\ CalculateCRC8 (take (Z.to_nat len) (drop 2 buffer)) len = Some calc
         /\ calculatedCRC buffer = Some calc
         /\ receivedCRC buffer = Some rx
         /\ (rx = calc <->
             exists acts,
               ProcessReceivedPacket buffer
               = Some (UartTransmit (bytes_of_string OK_text) :: acts))
         /\ (rx <> calc <->
             ProcessReceivedPacket buffer
             = Some [UartTransmit (bytes_of_string ERR_text)])).
Proof.
  intros Hn Hasm. split.
  - exists (crc8_fold 0 (eventId :: data)). split.
    + pose proof (CalculateCRC8_span (eventId :: data) []) as H.
      rewrite app_nil_r in H. rewrite <- H. f_equal. simpl. lia.
    + apply SendPacket_bytes, Hn.
  - destruct (ProcessReceivedPacket_cases _ _ Hasm)
      as (rx & calc & eventId' & acts & Hrx & Hcalc & _ & _ & _ & Hrun).
    pose proof (calculatedCRC_span _ _ Hasm) as Hspan.
    destruct Hasm as (Hsz & Hlen & H0 & Hfit). unfold BUFFER_SIZE in *.
    exists rx, calc.
    split. { unfold receivedCRC in Hrx. now rewrite Hlen in Hrx. }
    split.
    { rewrite Hcalc in Hspan. injection Hspan as ->.
      pose proof (CalculateCRC8_span (take (Z.to_nat len) (drop 2 buffer)) []) as H.
      rewrite app_nil_r in H. rewrite <- H. f_equal.
      rewrite length_take, length_drop. lia. }
    split; [exact Hcalc|]. split; [exact Hrx|].
    rewrite Hrun. destruct (Z.eqb_spec rx calc) as [Heq|Hne]; split; split.
    + intros _. eauto.
    + intros _. assumption.
    + intros Hc. contradiction.
    + intros Hc. exfalso. vm_compute in Hc. congruence.
    + intros Hc. contradiction.
    + intros [acts' Hc]. exfalso. vm_compute in Hc. congruence.
    + intros _. reflexivity.
    + intros _. assumption.
Qed.

Lemma checksum_covers_event_and_payload_witness :
  let buffer := [170; 2; 3; 1; 56] ++ repeat 0 27 in
  (exists crc,
      CalculateCRC8 [3; 1] 2 = Some crc
      /\ SendPacket 3 [1] 1 = Some [UartTransmit ([PACKET_START; 2; 3] ++ [1] ++ [crc])])
  /\ (exists rx calc,
         load buffer (2 + 2) = Some rx
         /\ CalculateCRC8 (take 2 (drop 2 buffer)) 2 = Some calc
         /\ calculatedCRC buffer = Some calc
         /\ receivedCRC buffer = Some rx
         /\ (rx = calc <->
             exists acts,
               ProcessReceivedPacket buffer
               = Some (UartTransmit (bytes_of_string OK_text) :: acts))
         /\ (rx <> calc <->
             ProcessReceivedPacket buffer
             = Some [UartTransmit (bytes_of_string ERR_text)])).
Proof.
  apply (checksum_covers_event_and_payload 3 [1]
           ([170; 2; 3; 1; 56] ++ repeat 0 27) 2).
  - vm_compute. congruence.
  - unfold assembled. repeat split; try reflexivity; vm_compute; congruence.
Defined.

(** ** Dispatch by event id *)

(** C7.  For every acknowledged frame whose event id is [EVENT_SERVO],
    whatever the value of its first payload byte, the dispatcher replies OK
    and then writes the compare register once, with the pulse width of the
    payload byte clamped into 0..180; a byte above 180 gives the pulse width
    of 180.  No ERR reply is sent. *)
Theorem servo_angle_is_clamped (buffer : list Z) (len angle : Z) :
  assembled buffer len ->
  receivedCRC buffer = calculatedCRC buffer ->
  load buffer 2 = Some EVENT_SERVO ->
  load buffer 3 = Some angle ->
  is_u8 angle ->
  let clamped := Z.max 0 (Z.min angle 180) in
  0 <= clamped <= 180
  /\ (angle <= 180 -> clamped = angle)
  /\ (180 < angle -> clamped = 180)
  /\ SetServoAngle angle = [TimSetCompare (50 + clamped * 100 / 180)]
  /\ ProcessReceivedPacket buffer
     = Some [UartTransmit (bytes_of_string OK_text);
             TimSetCompare (50 + clamped * 100 / 180)].
Proof.
  intros Hasm Hcrc Hev Hd0 Hangle clamped.
  assert (Hservo : SetServoAngle angle = [TimSetCompare (50 + clamped * 100 / 180)]).
  { unfold SetServoAngle, clamp_angle, clamped, is_u8 in *.
    destruct (Z.ltb_spec 180 angle).
    - rewrite Z.min_r, Z.max_r by lia. reflexivity.
    - rewrite Z.min_l, Z.max_r by lia. unfold u32.
      rewrite Z.mod_small; [reflexivity|].
      split; [apply Z.add_nonneg_nonneg; [lia|apply Z.div_pos; lia]|].
      assert (angle * 100 / 180 <= 180 * 100 / 180)
        by (apply Z.div_le_mono; lia).
      change (180 * 100 / 180) with 100 in *. lia. }
  unfold clamped, is_u8 in *.
  split; [lia|]. split; [lia|]. split; [lia|]. split; [exact Hservo|].
  destruct (ProcessReceivedPacket_cases _ _ Hasm)
    as (rx & calc & eventId & acts & Hrx & Hcalc & Hev' & Hacts & _ & Hrun).
  rewrite Hrx, Hcalc in Hcrc. injection Hcrc as ->.
  rewrite Hev in Hev'. injection Hev' as <-.
  rewrite Z.eqb_refl in Hrun. rewrite Hrun. do 2 f_equal.
  unfold dispatch_event in Hacts. simpl in Hacts.
  assert (Hload : load (drop 3 buffer) 0 = Some angle).
  { rewrite load_lookup in * by lia. now rewrite lookup_drop. }
  rewrite Hload in Hacts. simpl in Hacts. injection Hacts as <-.
  exact Hservo.
Qed.

Lemma servo_angle_is_clamped_witness :
  let buffer := [170; 2; 2; 200; 92] ++ repeat 0 27 in
  let clamped := Z.max 0 (Z.min 200 180) in
  0 <= clamped <= 180
  /\ (200 <= 180 -> clamped = 200)
  /\ (180 < 200 -> clamped = 180)
  /\ SetServoAngle 200 = [TimSetCompare (50 + clamped * 100 / 180)]
  /\ ProcessReceivedPacket buffer
     = Some [UartTransmit (bytes_of_string OK_text);
             TimSetCompare (50 + clamped * 100 / 180)].
Proof.
  apply (servo_angle_is_clamped ([170; 2; 2; 200; 92] ++ repeat 0 27) 2 200).
  - unfold assembled. repeat split; try reflexivity; vm_compute; congruence.
  - reflexivity.
  - reflexivity.
  - reflexivity.
  - unfold is_u8. lia.
Defined.

(** C8.  For every acknowledged frame whose event id is none of 1..5, the
    dispatcher transmits the OK reply and does nothing else: no compare
    write, no display write. *)
Theorem unknown_event_is_acknowledged (buffer : list Z) (len eventId : Z) :
  assembled buffer len ->
  receivedCRC buffer = calculatedCRC buffer ->
  load buffer 2 = Some eventId ->
  ~ (1 <= eventId <= 5) ->
  ProcessReceivedPacket buffer = Some [UartTransmit (bytes_of_string OK_text)].
Proof.
  intros Hasm Hcrc Hev Hunknown.
  destruct (ProcessReceivedPacket_cases _ _ Hasm)
    as (rx & calc & eventId' & acts & Hrx & Hcalc & Hev' & Hacts & _ & Hrun).
  rewrite Hrx, Hcalc in Hcrc. injection Hcrc as ->.
  rewrite Hev in Hev'. injection Hev' as <-.
  rewrite Z.eqb_refl in Hrun. rewrite Hrun. do 2 f_equal.
  unfold dispatch_event, EVENT_DISPLAY, EVENT_SERVO, EVENT_LP_STATUS,
    EVENT_PARK_FULL in Hacts.
  destruct (Z.eqb_spec eventId 1); [lia|].
  destruct (Z.eqb_spec eventId 2); [lia|].
  destruct (Z.eqb_spec eventId 4); [lia|].
  destruct (Z.eqb_spec eventId 5); [lia|].
  congruence.
Qed.

Lemma unknown_event_is_acknowledged_witness :
  ProcessReceivedPacket ([170; 2; 9; 1; 186] ++ repeat 0 27)
  = Some [UartTransmit (bytes_of_string OK_text)].
Proof.
  apply (unknown_event_is_acknowledged ([170; 2; 9; 1; 186] ++ repeat 0 27) 2 9).
  - unfold assembled. repeat split; try reflexivity; vm_compute; congruence.
  - vm_compute. reflexivity.
  - reflexivity.
  - lia.
Defined.

(** ** A frame of declared length zero *)

(** C10.  The bytes 0xAA, 0x00, [b] received from the idle state: nothing is
    dispatched after the first two, the third completes the frame; the
    dispatcher reads [b] both as the event id and as the received checksum,
    recomputes the checksum of the empty span, which is 0, and so replies OK
    and does nothing else when [b] is 0 and replies ERR otherwise. *)
Theorem zero_length_frame (d : decoder) (b : Z) :
  packetState d = 0 ->
  Z.of_nat (length (packetBuffer d)) = BUFFER_SIZE ->
  exists dmid d' evs,
    receive [PACKET_START; 0] d = Some (dmid, [])
    /\ packetState dmid = 2
    /\ receive [PACKET_START; 0; b] d = Some (d', [evs])
    /\ packetState d' = 0
    /\ ProcessReceivedPacket (packetBuffer d') = Some evs
    /\ load (packetBuffer d') 2 = Some b
    /\ receivedCRC (packetBuffer d') = Some b
    /\ calculatedCRC (packetBuffer d') = Some 0
    /\ evs = (if b =? 0
              then [UartTransmit (bytes_of_string OK_text)]
              else [UartTransmit (bytes_of_string ERR_text)])
    /\ (evs = [UartTransmit (bytes_of_string OK_text)] <-> b = 0).
Proof.
  intros Hst Hsz.
  destruct (receive_frame d 0 [] b Hst Hsz eq_refl)
    as (rest & evs & dmid & Hasm & Hrun & Hpre & Hmid & Hall).
  { unfold BUFFER_SIZE. lia. }
  cbv zeta in *. simpl app in *.
  set (buf := PACKET_START :: 0 :: b :: rest) in *.
  destruct (frame_layout 0 [] b rest eq_refl) as [Hrx Hcalc].
  simpl app in Hrx, Hcalc. fold buf in Hrx, Hcalc.
  change (crc8_fold 0 []) with 0 in Hcalc.
  destruct (ProcessReceivedPacket_cases _ _ Hasm)
    as (rx' & calc' & eventId' & acts & Hrx' & Hcalc' & Hev & Hacts & _ & Hrun').
  rewrite Hrx in Hrx'. rewrite Hcalc in Hcalc'.
  injection Hrx' as <-. injection Hcalc' as <-.
  change (load buf 2) with (Some b) in Hev. injection Hev as <-.
  rewrite Hrun' in Hrun. injection Hrun as <-.
  assert (Hevs : (if b =? 0
                  then UartTransmit (bytes_of_string OK_text) :: acts
                  else [UartTransmit (bytes_of_string ERR_text)])
                 = (if b =? 0
                    then [UartTransmit (bytes_of_string OK_text)]
                    else [UartTransmit (bytes_of_string ERR_text)])).
  { destruct (Z.eqb_spec b 0) as [->|Hne]; [|reflexivity].
    vm_compute in Hacts. now injection Hacts as <-. }
  exists dmid, (Decoder buf 0 0 0). eexists.
  split; [exact Hpre|]. split; [exact Hmid|]. split; [exact Hall|].
  split; [reflexivity|]. split; [exact Hrun'|]. split; [reflexivity|].
  split; [exact Hrx|]. split; [exact Hcalc|]. split; [exact Hevs|].
  rewrite Hevs. destruct (Z.eqb_spec b 0) as [->|Hne]; split; intros H;
    try reflexivity; try assumption.
  - exfalso. vm_compute in H. congruence.
  - contradiction.
Qed.

Lemma zero_length_frame_witness :
  exists dmid d' evs,
    receive [PACKET_START; 0] decoder_init = Some (dmid, [])
    /\ packetState dmid = 2
    /\ receive [PACKET_START; 0; 5] decoder_init = Some (d', [evs])
    /\ packetState d' = 0
    /\ ProcessReceivedPacket (packetBuffer d') = Some evs
    /\ load (packetBuffer d') 2 = Some 5
    /\ receivedCRC (packetBuffer d') = Some 5
    /\ calculatedCRC (packetBuffer d') = Some 0
    /\ evs = (if 5 =? 0
              then [UartTransmit (bytes_of_string OK_text)]
              else [UartTransmit (bytes_of_string ERR_text)])
    /\ (evs = [UartTransmit (bytes_of_string OK_text)] <-> 5 = 0).
Proof.
  apply (zero_length_frame decoder_init 5).
  - reflexivity.
  - reflexivity.
Defined.

(** ** The presence monitor *)

Lemma SendPacket_car_detect (v : Z) :
  SendPacket EVENT_CAR_DETECT [v] 1
  = Some [UartTransmit (frame_bytes EVENT_CAR_DETECT [v])].
Proof. apply (SendPacket_bytes EVENT_CAR_DETECT [v]). vm_compute. congruence. Qed.

(** One pass of the loop: the debounce part of the next state and the change
    report are those of [debounce_next]; the periodic block touches only
    [lastDetectionSendTime]. *)
Lemma main_loop_body_spec (i : sample) (p : presence) :
  exists stamp per,
    main_loop_body i p
    = Some (Presence (if fires i p then pin i else carDetected p)
                     (pin i) (next_mark i p) stamp,
            Reports (if fires i p
                     then [UartTransmit (frame_bytes EVENT_CAR_DETECT [pin i])]
                     else [])
                    per).
Proof.
  unfold main_loop_body, debounce_block, fires, next_mark.
  destruct (DEBOUNCE_TIME <? _); cbn [andb];
    [destruct (negb (carDetected p =? pin i))|];
    try rewrite SendPacket_car_detect; cbn [mbind option_bind];
    unfold periodic_block; cbn [carDetected lastCarDetected lastDebounceTime
                                  lastDetectionSendTime];
    destruct (1000 <? _); try rewrite SendPacket_car_detect;
    cbn [mbind option_bind]; eauto.
Qed.

Lemma main_loop_cons (i : sample) (rest : list sample) (p p1 : presence)
    (r : reports) :
  main_loop_body i p = Some (p1, r) ->
  main_loop (i :: rest) p
  = '(p2, rs) ← main_loop rest p1; Some (p2, r :: rs).
Proof. intros H. cbn [main_loop]. rewrite H. reflexivity. Qed.

(** While every pass sees the raw reading changed at most [DEBOUNCE_TIME]
    ago, no change is reported and [carDetected] keeps its value. *)
Lemma no_report_while_changing (samples : list sample) :
  forall p : presence,
    recently_changed (lastCarDetected p) (lastDebounceTime p) samples ->
    exists p' rs,
      main_loop samples p = Some (p', rs)
      /\ change_events rs = []
      /\ carDetected p' = carDetected p.
Proof.
  induction samples as [|i rest IH]; intros p Hrc.
  - exists p, []. repeat split.
  - destruct Hrc as [Hnow Hrest].
    destruct (main_loop_body_spec i p) as (stamp & per & Hbody).
    assert (Hquiet : fires i p = false).
    { unfold fires, next_mark.
      destruct (Z.ltb_spec DEBOUNCE_TIME
                  (u32 (tick_check i
                        - (if negb (pin i =? lastCarDetected p)
                           then tick_mark i else lastDebounceTime p))));
        [|reflexivity].
      unfold DEBOUNCE_TIME in *. lia. }
    rewrite Hquiet in Hbody.
    rewrite (main_loop_cons _ _ _ _ _ Hbody).
    match type of Hbody with _ = Some (?q, _) =>
      destruct (IH q Hrest) as (p' & rs & Hrun & Hnone & Hcd) end.
    rewrite Hrun. cbn [mbind option_bind].
    exists p'. eexists. split; [reflexivity|]. split.
    + unfold change_events in *. simpl. exact Hnone.
    + exact Hcd.
Qed.

(** A reading [r] that stays: once the timer was set at [mark] and the raw
    reading is [r], further passes that read [r] report the change at most
    once, at the first pass that sees more than [DEBOUNCE_TIME] elapsed. *)
Lemma stable_reading (r mark : Z) (samples : list sample) :
  forall p : presence,
    lastCarDetected p = r ->
    lastDebounceTime p = mark ->
    Forall (fun i => pin i = r) samples ->
    exists p' rs,
      main_loop samples p = Some (p', rs)
      /\ lastCarDetected p' = r
      /\ (carDetected p = r -> change_events rs = [] /\ carDetected p' = r)
      /\ (carDetected p <> r ->
          Forall (fun i => u32 (tick_check i - mark) <= DEBOUNCE_TIME) samples ->
          change_events rs = [] /\ carDetected p' = carDetected p)
      /\ (carDetected p <> r ->
          Exists (fun i => DEBOUNCE_TIME < u32 (tick_check i - mark)) samples ->
          change_events rs = [UartTransmit (frame_bytes EVENT_CAR_DETECT [r])]
          /\ carDetected p' = r).
Proof.
  induction samples as [|i rest IH]; intros p Hlast Hmark Hpins.
  - exists p, []. split; [reflexivity|]. split; [assumption|].
    split; [intros Heq; split; [reflexivity|assumption]|].
    split; [intros _ _; split; reflexivity|].
    intros _ Hex. inversion Hex.
  - apply Forall_cons in Hpins as [Hpin Hpins'].
    destruct (main_loop_body_spec i p) as (stamp & per & Hbody).
    assert (Hmark' : next_mark i p = mark).
    { unfold next_mark. now rewrite Hpin, Hlast, Z.eqb_refl. }
    assert (Hfires : fires i p
                     = (DEBOUNCE_TIME <? u32 (tick_check i - mark))
                         && negb (carDetected p =? r)).
    { unfold fires. now rewrite Hmark', Hpin. }
    rewrite Hmark', Hpin in Hbody.
    rewrite (main_loop_cons _ _ _ _ _ Hbody).
    match type of Hbody with _ = Some (?q, _) =>
      destruct (IH q eq_refl eq_refl Hpins')
        as (p' & rs & Hrun & Hlast' & Hsame & Hquiet & Hfire) end.
    cbn [carDetected] in Hsame, Hquiet, Hfire.
    rewrite Hrun. cbn [mbind option_bind].
    exists p'. eexists. split; [reflexivity|]. split; [exact Hlast'|].
    unfold change_events in *. cbn [map concat change_report].
    rewrite Hfires in *.
    destruct (Z.eqb_spec (carDetected p) r) as [Heq|Hne].
    + (* the debounced value already agrees with the reading *)
      rewrite andb_false_r in *.
      split; [intros _; now apply Hsame|].
      split; intros Hc; contradiction.
    + destruct (Z.ltb_spec DEBOUNCE_TIME (u32 (tick_check i - mark)))
        as [Hlong|Hshort]; cbn [andb negb] in *.
      * (* this pass reports the change *)
        destruct (Hsame eq_refl) as [Hnone Hcd].
        split; [intros Hc; contradiction|].
        split.
        { intros _ Hall. apply Forall_cons in Hall as [Hnow _]. lia. }
        { intros _ _. simpl. rewrite Hnone. split; [reflexivity|exact Hcd]. }
      * (* not yet *)
        split; [intros Hc; contradiction|].
        split.
        { intros _ Hall. apply Forall_cons in Hall as [_ Hall].
          simpl. now apply Hquiet. }
        { intros _ Hex. apply Exists_cons in Hex as [Hnow|Hex]; [lia|].
          simpl. now apply Hfire. }
Qed.

(** The claim that a transition held for at least the debounce interval is
    reported fails at the boundary: the reading goes from 0 to 1 at tick 100
    and is still 1 at tick 150, fifty ticks later, and nothing is reported;
    line 100 asks for more than [DEBOUNCE_TIME]. *)
Lemma debounce_boundary_counterexample :
  exists p' rs,
    150 - 100 >= DEBOUNCE_TIME
    /\ main_loop [at_tick 100 1; at_tick 150 1] presence_init = Some (p', rs)
    /\ change_events rs = []
    /\ length (change_events rs) <> 1%nat
    /\ carDetected p' = 0.
Proof.
  eexists. eexists.
  split; [vm_compute; congruence|].
  split; [vm_compute; reflexivity|].
  repeat split. simpl. lia.
Qed.

(** C6, amended.  While the raw reading keeps changing, so that no pass sees
    more than [DEBOUNCE_TIME] ticks since the last change, the monitor
    reports no change.  After a single transition away from a settled value,
    with the reading then staying the same, the monitor reports the change
    exactly once as soon as some pass sees more than [DEBOUNCE_TIME] ticks
    since the transition, and reports nothing as long as no pass does. *)
Theorem debounce_change_reports
    (p : presence) (changing : list sample)
    (q : presence) (r : Z) (first : sample) (held : list sample) :
  recently_changed (lastCarDetected p) (lastDebounceTime p) changing ->
  lastCarDetected q = carDetected q ->
  pin first = r ->
  r <> carDetected q ->
  Forall (fun i => pin i = r) held ->
  (exists p' rs,
      main_loop changing p = Some (p', rs)
      /\ change_events rs = []
      /\ carDetected p' = carDetected p)
  /\ (exists q' rs,
         main_loop (first :: held) q = Some (q', rs)
         /\ (Exists (fun i => DEBOUNCE_TIME < u32 (tick_check i - tick_mark first))
               (first :: held) ->
             change_events rs
               = [UartTransmit (frame_bytes EVENT_CAR_DETECT [r])]
             /\ carDetected q' = r)
         /\ (Forall (fun i => u32 (tick_check i - tick_mark first) <= DEBOUNCE_TIME)
               (first :: held) ->
             change_events rs = [] /\ carDetected q' = carDetected q)).
Proof.
  intros Hchanging Hsettled Hpin Hnew Hheld.
  split; [apply no_report_while_changing, Hchanging|].
  destruct (main_loop_body_spec first q) as (stamp & per & Hbody).
  assert (Hmark : next_mark first q = tick_mark first).
  { unfold next_mark. rewrite Hpin, Hsettled.
    destruct (Z.eqb_spec r (carDetected q)); [contradiction|reflexivity]. }
  assert (Hfires : fires first q
                   = (DEBOUNCE_TIME <? u32 (tick_check first - tick_mark first))).
  { unfold fires. rewrite Hmark, Hpin.
    destruct (Z.eqb_spec (carDetected q) r); [congruence|].
    apply andb_true_r. }
  rewrite Hmark, Hpin, Hfires in Hbody.
  rewrite (main_loop_cons _ _ _ _ _ Hbody).
  match type of Hbody with _ = Some (?q1, _) =>
    destruct (stable_reading r (tick_mark first) held q1 eq_refl eq_refl Hheld)
      as (q' & rs & Hrun & _ & Hsame & Hquiet & Hfire) end.
  cbn [carDetected] in Hsame, Hquiet, Hfire.
  rewrite Hrun. cbn [mbind option_bind].
  exists q'. eexists. split; [reflexivity|].
  unfold change_events in *. cbn [map concat change_report].
  destruct (Z.ltb_spec DEBOUNCE_TIME (u32 (tick_check first - tick_mark first)))
    as [Hlong|Hshort].
  - destruct (Hsame eq_refl) as [Hnone Hcd]. split.
    + intros _. simpl. rewrite Hnone. split; [reflexivity|exact Hcd].
    + intros Hall. apply Forall_cons in Hall as [Hnow _]. lia.
  - assert (Hne : carDetected q <> r) by congruence. split.
    + intros Hex. apply Exists_cons in Hex as [Hnow|Hex]; [lia|].
      simpl. now apply Hfire.
    + intros Hall. apply Forall_cons in Hall as [_ Hall].
      simpl. now apply Hquiet.
Qed.

Lemma debounce_change_reports_witness :
  let changing := [at_tick 10 1; at_tick 40 0; at_tick 70 1; at_tick 100 0] in
  let first := at_tick 100 1 in
  let held := [at_tick 150 1; at_tick 151 1; at_tick 400 1] in
  (exists p' rs,
      main_loop changing presence_init = Some (p', rs)
      /\ change_events rs = []
      /\ carDetected p' = carDetected presence_init)
  /\ (exists q' rs,
         main_loop (first :: held) presence_init = Some (q', rs)
         /\ (Exists (fun i => DEBOUNCE_TIME < u32 (tick_check i - tick_mark first))
               (first :: held) ->
             change_events rs
               = [UartTransmit (frame_bytes EVENT_CAR_DETECT [1])]
             /\ carDetected q' = 1)
         /\ (Forall (fun i => u32 (tick_check i - tick_mark first) <= DEBOUNCE_TIME)
               (first :: held) ->
             change_events rs = [] /\ carDetected q' = carDetected presence_init)).
Proof.
  apply (debounce_change_reports
           presence_init
           [at_tick 10 1; at_tick 40 0; at_tick 70 1; at_tick 100 0]
           presence_init 1 (at_tick 100 1)
           [at_tick 150 1; at_tick 151 1; at_tick 400 1]).
  - simpl. repeat split; vm_compute; congruence.
  - reflexivity.
  - reflexivity.
  - simpl. lia.
  - repeat constructor.
Defined.

(** The run of the witness reports the change once, at tick 151. *)
Example debounce_run_151 :
  exists p' rs,
    main_loop [at_tick 100 1; at_tick 150 1; at_tick 151 1; at_tick 400 1]
      presence_init = Some (p', rs)
    /\ map change_report rs
       = [[]; []; [UartTransmit [170; 2; 3; 1; 56]]; []]
    /\ carDetected p' = 1.
Proof. eexists. eexists. split; [vm_compute; reflexivity|]. split; reflexivity. Qed.

(** * Further properties of the code *)

(** ** The checksum as an error-detecting code *)

Lemma lxor_u8 (a b : Z) : is_u8 a -> is_u8 b -> is_u8 (Z.lxor a b).
Proof.
  intros Ha Hb.
  pose proof (u8_exhaust2
    (fun x y => (0 <=? Z.lxor x y) && (Z.lxor x y <? 256))) as H.
  specialize (H ltac:(vm_compute; reflexivity) a b Ha Hb). cbv beta in H.
  apply andb_true_iff in H as [H1 H2]. unfold is_u8. lia.
Qed.

(** The eight shifts are one-to-one on bytes. *)
Lemma shifts_injective (a b : Z) :
  is_u8 a -> is_u8 b ->
  Nat.iter 8 crc8_shift a = Nat.iter 8 crc8_shift b -> a = b.
Proof.
  intros Ha Hb Heq.
  pose proof (u8_exhaust2
    (fun x y => implb (Nat.iter 8 crc8_shift x =? Nat.iter 8 crc8_shift y)
                      (x =? y))) as H.
  specialize (H ltac:(vm_compute; reflexivity) a b Ha Hb). cbv beta in H.
  rewrite Heq, Z.eqb_refl in H. simpl in H. now apply Z.eqb_eq.
Qed.

Lemma lxor_cancel_l (c x y : Z) : Z.lxor c x = Z.lxor c y -> x = y.
Proof.
  intros H. apply (f_equal (Z.lxor c)) in H.
  now rewrite <- !Z.lxor_assoc, Z.lxor_nilpotent, !Z.lxor_0_l in H.
Qed.

Lemma lxor_cancel_r (c1 c2 d : Z) : Z.lxor c1 d = Z.lxor c2 d -> c1 = c2.
Proof. rewrite !(Z.lxor_comm _ d). apply lxor_cancel_l. Qed.

Lemma crc8_byte_inj_data (crc x y : Z) :
  is_u8 crc -> is_u8 x -> is_u8 y ->
  crc8_byte crc x = crc8_byte crc y -> x = y.
Proof.
  intros Hc Hx Hy H. unfold crc8_byte in H.
  apply shifts_injective in H; [|now apply lxor_u8..].
  now apply lxor_cancel_l in H.
Qed.

Lemma crc8_byte_inj_crc (c1 c2 d : Z) :
  is_u8 c1 -> is_u8 c2 -> is_u8 d ->
  crc8_byte c1 d = crc8_byte c2 d -> c1 = c2.
Proof.
  intros H1 H2 Hd H. unfold crc8_byte in H.
  apply shifts_injective in H; [|now apply lxor_u8..].
  now apply lxor_cancel_r in H.
Qed.

Lemma crc8_fold_inj_crc (bs : list Z) :
  Forall is_u8 bs ->
  forall c1 c2, is_u8 c1 -> is_u8 c2 ->
    crc8_fold c1 bs = crc8_fold c2 bs -> c1 = c2.
Proof.
  induction 1 as [|b bs Hb _ IH]; intros c1 c2 H1 H2 Heq; [exact Heq|].
  simpl in Heq. apply IH in Heq; [|apply crc8_byte_u8..].
  now apply crc8_byte_inj_crc in Heq.
Qed.

Lemma crc8_fold_one_byte_differs (pre post : list Z) (x y : Z) :
  Forall is_u8 pre -> Forall is_u8 post -> is_u8 x -> is_u8 y -> x <> y ->
  crc8_fold 0 (pre ++ x :: post) <> crc8_fold 0 (pre ++ y :: post).
Proof.
  intros Hpre Hpost Hx Hy Hne Heq.
  rewrite !crc8_fold_app in Heq. simpl in Heq.
  apply (crc8_fold_inj_crc post Hpost) in Heq; [|apply crc8_byte_u8..].
  apply crc8_byte_inj_data in Heq; [contradiction| |assumption|assumption].
  apply crc8_fold_u8. unfold is_u8. lia.
Qed.

(** X1.  A span followed by its own checksum has checksum 0. *)
Theorem checksum_of_span_and_checksum_is_zero (span : list Z) (crc : Z) :
  Z.of_nat (length span) + 1 <= 255 ->
  CalculateCRC8 span (Z.of_nat (length span)) = Some crc ->
  CalculateCRC8 (span ++ [crc]) (Z.of_nat (length span) + 1) = Some 0.
Proof.
  intros _ Hcrc.
  pose proof (CalculateCRC8_span span []) as Hspan.
  rewrite app_nil_r, Hcrc in Hspan. injection Hspan as ->.
  pose proof (CalculateCRC8_span (span ++ [crc8_fold 0 span]) []) as H.
  rewrite app_nil_r, length_app in H. simpl length in H.
  replace (Z.of_nat (length span) + 1) with (Z.of_nat (length span + 1)) by lia.
  rewrite H, crc8_fold_app. simpl. unfold crc8_byte.
  rewrite Z.lxor_nilpotent. reflexivity.
Qed.

Lemma checksum_of_span_and_checksum_is_zero_witness :
  CalculateCRC8 ([3; 1] ++ [56]) (2 + 1) = Some 0.
Proof.
  apply (checksum_of_span_and_checksum_is_zero [3; 1] 56).
  - simpl. lia.
  - vm_compute. reflexivity.
Defined.

(** X2.  Two spans of bytes of the same length that differ in exactly one
    cell have different checksums: every corruption confined to one byte
    (any burst of up to eight bits inside it) changes the checksum. *)
Theorem checksum_detects_one_corrupted_byte (pre post : list Z) (x y c1 c2 : Z) :
  Forall is_u8 pre -> Forall is_u8 post -> is_u8 x -> is_u8 y ->
  Z.of_nat (length (pre ++ x :: post)) <= 255 ->
  x <> y ->
  CalculateCRC8 (pre ++ x :: post) (Z.of_nat (length (pre ++ x :: post))) = Some c1 ->
  CalculateCRC8 (pre ++ y :: post) (Z.of_nat (length (pre ++ y :: post))) = Some c2 ->
  c1 <> c2.
Proof.
  intros Hpre Hpost Hx Hy _ Hne H1 H2.
  pose proof (CalculateCRC8_span (pre ++ x :: post) []) as E1.
  pose proof (CalculateCRC8_span (pre ++ y :: post) []) as E2.
  rewrite app_nil_r in E1, E2. rewrite E1 in H1. rewrite E2 in H2.
  injection H1 as <-. injection H2 as <-.
  now apply crc8_fold_one_byte_differs.
Qed.

Lemma checksum_detects_one_corrupted_byte_witness :
  CalculateCRC8 ([3] ++ 1 :: [7]) 3 = Some 189
  /\ CalculateCRC8 ([3] ++ 129 :: [7]) 3 = Some 11
  /\ 189 <> 11.
Proof.
  split; [vm_compute; reflexivity|]. split; [vm_compute; reflexivity|].
  apply (checksum_detects_one_corrupted_byte [3] [7] 1 129 189 11).
  - repeat constructor; unfold is_u8; lia.
  - repeat constructor; unfold is_u8; lia.
  - unfold is_u8; lia.
  - unfold is_u8; lia.
  - simpl; lia.
  - lia.
  - vm_compute; reflexivity.
  - vm_compute; reflexivity.
Defined.

(** ** Frames on the wire, whoever built them *)

(** The reply to a frame received from the idle state is decided by the
    comparison of its trailing byte with the checksum of its body. *)
Lemma receive_frame_reply (d : decoder) (len : Z) (body : list Z) (rx : Z) :
  packetState d = 0 ->
  Z.of_nat (length (packetBuffer d)) = BUFFER_SIZE ->
  Z.of_nat (length body) = len ->
  len + 3 <= BUFFER_SIZE ->
  exists buf acts,
    Z.of_nat (length buf) = BUFFER_SIZE
    /\ filter is_reply acts = []
    /\ receive ([PACKET_START; len] ++ body ++ [rx]) d
       = Some (Decoder buf 0 0 len,
               [if rx =? crc8_fold 0 body
                then UartTransmit (bytes_of_string OK_text) :: acts
                else [UartTransmit (bytes_of_string ERR_text)]]).
Proof.
  intros Hst Hsz Hbody Hfit.
  destruct (receive_frame d len body rx Hst Hsz Hbody Hfit)
    as (rest & evs & dmid & Hasm & Hrun & _ & _ & Hall).
  cbv zeta in *.
  destruct (frame_layout len body rx rest Hbody) as [Hrx Hcalc].
  destruct (ProcessReceivedPacket_cases _ _ Hasm)
    as (rx' & calc' & eventId & acts & Hrx' & Hcalc' & _ & _ & Hnr & Hrun').
  rewrite Hrx in Hrx'. rewrite Hcalc in Hcalc'.
  injection Hrx' as <-. injection Hcalc' as <-.
  rewrite Hrun' in Hrun. injection Hrun as <-.
  eexists. exists acts. split; [exact (proj1 Hasm)|]. split; [exact Hnr|].
  exact Hall.
Qed.

(** X3.  A packet built by [SendPacket] in which one byte among the event
    id, the payload and the checksum was replaced by a different byte is
    answered with ERR and nothing else, and the decoder is idle again. *)
Theorem corrupted_frame_is_rejected
    (d : decoder) (eventId : Z) (data pre post : list Z) (x y : Z) :
  packetState d = 0 ->
  Z.of_nat (length (packetBuffer d)) = BUFFER_SIZE ->
  Z.of_nat (length data) <= BUFFER_SIZE - 4 ->
  is_u8 eventId -> Forall is_u8 data -> is_u8 y ->
  drop 2 (frame_bytes eventId data) = pre ++ x :: post ->
  x <> y ->
  exists d',
    SendPacket eventId data (Z.of_nat (length data))
      = Some [UartTransmit (take 2 (frame_bytes eventId data) ++ pre ++ x :: post)]
    /\ receive (take 2 (frame_bytes eventId data) ++ pre ++ y :: post) d
       = Some (d', [[UartTransmit (bytes_of_string ERR_text)]])
    /\ packetState d' = 0.
Proof.
  intros Hst Hsz Hn He Hdata Hy Hsplit Hne.
  set (len := Z.of_nat (length data) + 1).
  set (body := eventId :: data).
  set (crc := crc8_fold 0 body).
  assert (Hbytes : Forall is_u8 body) by (constructor; assumption).
  assert (Hcrc : is_u8 crc) by (apply crc8_fold_u8; unfold is_u8; lia).
  change (drop 2 (frame_bytes eventId data)) with (body ++ [crc]) in Hsplit.
  change (take 2 (frame_bytes eventId data)) with [PACKET_START; len].
  assert (Hlen : Z.of_nat (length body) = len) by (unfold len, body; simpl; lia).
  assert (Hfit : len + 3 <= BUFFER_SIZE) by (unfold len, BUFFER_SIZE in *; lia).
  assert (Hbad : exists body' rx',
             pre ++ y :: post = body' ++ [rx']
             /\ length body' = length body
             /\ (rx' =? crc8_fold 0 body') = false).
  { destruct (decide (post = [])) as [->|Hpost].
    - apply app_inj_tail in Hsplit as [<- <-].
      exists body, y. repeat split. apply Z.eqb_neq. fold crc. congruence.
    - destruct (exists_last Hpost) as (post' & z & ->).
      rewrite app_comm_cons, app_assoc in Hsplit.
      apply app_inj_tail in Hsplit as [Hb <-].
      exists (pre ++ y :: post'), crc. split; [|split].
      + now rewrite app_comm_cons, app_assoc.
      + rewrite Hb, !length_app. reflexivity.
      + apply Z.eqb_neq. unfold crc at 1. rewrite Hb.
        rewrite Hb in Hbytes. apply Forall_app in Hbytes as [Hp Hq].
        apply Forall_cons in Hq as [Hx Hq].
        now apply crc8_fold_one_byte_differs. }
  destruct Hbad as (body' & rx' & Heq & Hlen' & Hmis).
  destruct (receive_frame_reply d len body' rx' Hst Hsz) as (buf & acts & _ & _ & Hrun);
    [lia|exact Hfit|].
  rewrite Hmis in Hrun.
  eexists. split; [|split].
  - rewrite <- Hsplit. apply SendPacket_bytes, Hn.
  - rewrite Heq. exact Hrun.
  - reflexivity.
Qed.

Lemma corrupted_frame_is_rejected_witness :
  exists d',
    SendPacket 2 [90] 1
      = Some [UartTransmit (take 2 (frame_bytes 2 [90]) ++ [2] ++ 90 :: [crc8_fold 0 [2; 90]])]
    /\ receive (take 2 (frame_bytes 2 [90]) ++ [2] ++ 91 :: [crc8_fold 0 [2; 90]])
         decoder_init
       = Some (d', [[UartTransmit (bytes_of_string ERR_text)]])
    /\ packetState d' = 0.
Proof.
  apply (corrupted_frame_is_rejected decoder_init 2 [90] [2]
           [crc8_fold 0 [2; 90]] 90 91).
  - reflexivity.
  - reflexivity.
  - vm_compute. congruence.
  - unfold is_u8. lia.
  - repeat constructor; unfold is_u8; lia.
  - unfold is_u8. lia.
  - reflexivity.
  - lia.
Defined.

(** X4.  Two frames received back to back from the idle state are
    dispatched one after the other, each with its own reply, whatever the
    first reply was: a rejected frame leaves nothing behind that affects the
    next one. *)
Theorem two_frames_in_a_row
    (d : decoder) (body1 body2 : list Z) (rx1 rx2 c1 c2 : Z) :
  packetState d = 0 ->
  Z.of_nat (length (packetBuffer d)) = BUFFER_SIZE ->
  Z.of_nat (length body1) + 3 <= BUFFER_SIZE ->
  Z.of_nat (length body2) + 3 <= BUFFER_SIZE ->
  CalculateCRC8 body1 (Z.of_nat (length body1)) = Some c1 ->
  CalculateCRC8 body2 (Z.of_nat (length body2)) = Some c2 ->
  exists d' acts1 acts2,
    receive (([PACKET_START; Z.of_nat (length body1)] ++ body1 ++ [rx1])
             ++ [PACKET_START; Z.of_nat (length body2)] ++ body2 ++ [rx2]) d
    = Some (d',
            [if rx1 =? c1 then UartTransmit (bytes_of_string OK_text) :: acts1
             else [UartTransmit (bytes_of_string ERR_text)];
             if rx2 =? c2 then UartTransmit (bytes_of_string OK_text) :: acts2
             else [UartTransmit (bytes_of_string ERR_text)]])
    /\ packetState d' = 0
    /\ filter is_reply acts1 = [] /\ filter is_reply acts2 = [].
Proof.
  intros Hst Hsz Hfit1 Hfit2 Hc1 Hc2.
  pose proof (CalculateCRC8_span body1 []) as E1.
  pose proof (CalculateCRC8_span body2 []) as E2.
  rewrite app_nil_r in E1, E2. rewrite E1 in Hc1. rewrite E2 in Hc2.
  injection Hc1 as <-. injection Hc2 as <-.
  destruct (receive_frame_reply d _ body1 rx1 Hst Hsz eq_refl Hfit1)
    as (buf1 & acts1 & Hsz1 & Hnr1 & Hrun1).
  destruct (receive_frame_reply (Decoder buf1 0 0 (Z.of_nat (length body1)))
              _ body2 rx2 eq_refl Hsz1 eq_refl Hfit2)
    as (buf2 & acts2 & _ & Hnr2 & Hrun2).
  eexists. exists acts1, acts2.
  split.
  { rewrite receive_app, Hrun1. cbn [mbind option_bind].
    rewrite Hrun2. reflexivity. }
  split; [reflexivity|split; assumption].
Qed.

Lemma two_frames_in_a_row_witness :
  exists d' acts1 acts2,
    receive (([PACKET_START; 2] ++ [3; 1] ++ [0])
             ++ [PACKET_START; 2] ++ [3; 1] ++ [56]) decoder_init
    = Some (d',
            [if 0 =? 56 then UartTransmit (bytes_of_string OK_text) :: acts1
             else [UartTransmit (bytes_of_string ERR_text)];
             if 56 =? 56 then UartTransmit (bytes_of_string OK_text) :: acts2
             else [UartTransmit (bytes_of_string ERR_text)]])
    /\ packetState d' = 0
    /\ filter is_reply acts1 = [] /\ filter is_reply acts2 = [].
Proof.
  apply (two_frames_in_a_row decoder_init [3; 1] [3; 1] 0 56 56 56).
  - reflexivity.
  - reflexivity.
  - vm_compute. congruence.
  - vm_compute. congruence.
  - vm_compute. reflexivity.
  - vm_compute. reflexivity.
Defined.

(** X5.  In the idle state every byte other than the start marker is
    dropped: no state changes, nothing is dispatched, and what follows is
    decoded as if those bytes had not arrived. *)
Theorem idle_discards_other_bytes (noise rest : list Z) (d : decoder) :
  packetState d = 0 ->
  Forall (fun b => b <> PACKET_START) noise ->
  receive noise d = Some (d, [])
  /\ receive (noise ++ rest) d = receive rest d.
Proof.
  intros Hst Hnoise.
  assert (Hdrop : receive noise d = Some (d, [])).
  { induction Hnoise as [|b bs Hb _ IH]; [reflexivity|].
    cbn [receive]. rewrite callback_idle_other by assumption.
    cbn [mbind option_bind]. rewrite IH. reflexivity. }
  split; [exact Hdrop|].
  rewrite receive_app, Hdrop. cbn [mbind option_bind].
  destruct (receive rest d) as [[d2 o2]|]; reflexivity.
Qed.

Lemma idle_discards_other_bytes_witness :
  receive [1; 2; 3] decoder_init = Some (decoder_init, [])
  /\ receive ([1; 2; 3] ++ [170; 0; 0]) decoder_init
     = receive [170; 0; 0] decoder_init.
Proof.
  apply (idle_discards_other_bytes [1; 2; 3] [170; 0; 0] decoder_init).
  - reflexivity.
  - repeat constructor; unfold PACKET_START; lia.
Defined.

(** ** The decoder on arbitrary byte streams *)

Lemma callback_reply_count (d d' : decoder) (rx : Z) (evs : list event) :
  decoder_wf d ->
  HAL_UART_RxCpltCallback USART2 rx d = Some (d', Some evs) ->
  length (filter is_reply evs) = 1%nat.
Proof.
  intros Hwf Hstep. pose proof Hwf as [Hsz Hcases]. unfold BUFFER_SIZE in *.
  destruct Hcases as [H0|[[H1 Hidx]|(H2 & Hrange & Hlt & Hlen)]].
  - destruct (Z.eq_dec rx PACKET_START) as [->|Hne].
    + rewrite callback_idle_marker in Hstep; [discriminate|assumption|].
      destruct (packetBuffer d); [simpl in Hsz; lia|congruence].
    + rewrite callback_idle_other in Hstep by assumption. discriminate.
  - rewrite callback_length in Hstep by (assumption || lia). discriminate.
  - destruct (Z_lt_le_dec (packetIndex d) 32) as [Hin|Hout].
    + destruct (callback_payload_wf d rx Hwf H2 Hin)
        as [[Hmore Heq]|(Hdone & Hasm & evs' & Hrun & Heq)];
        rewrite Heq in Hstep; [discriminate|].
      injection Hstep as _ <-.
      destruct (ProcessReceivedPacket_cases _ _ Hasm)
        as (rxc & calc & ? & acts & _ & _ & _ & _ & Hnr & Hrun').
      rewrite Hrun' in Hrun. injection Hrun as <-.
      destruct (rxc =? calc); [|reflexivity].
      change (length (UartTransmit (bytes_of_string OK_text)
                        :: filter is_reply acts) = 1%nat).
      now rewrite Hnr.
    + rewrite callback_overflow in Hstep by first [right; assumption | lia].
      discriminate.
Qed.

(** X6.  Along every stream of bytes that the decoder gets through, from a
    state that satisfies the invariant (the initial state does): the
    invariant holds at the end, there are never more dispatches than bytes,
    and every dispatch transmitted exactly one reply. *)
Theorem decoder_run_invariant (bytes : list Z) :
  forall (d d' : decoder) (outs : list (list event)),
    decoder_wf d ->
    Forall is_u8 bytes ->
    receive bytes d = Some (d', outs) ->
    decoder_wf d'
    /\ (length outs <= length bytes)%nat
    /\ Forall (fun evs => length (filter is_reply evs) = 1%nat) outs.
Proof.
  induction bytes as [|rx rest IH]; intros d d' outs Hwf Hbytes Hrun.
  - injection Hrun as <- <-.
    split; [exact Hwf|]. split; [simpl; lia|constructor].
  - apply Forall_cons in Hbytes as [Hrx Hrest].
    cbn [receive] in Hrun.
    destruct (HAL_UART_RxCpltCallback USART2 rx d) as [[d1 out]|] eqn:Hstep;
      [|discriminate].
    cbn [mbind option_bind] in Hrun.
    destruct (receive rest d1) as [[d2 outs2]|] eqn:Hrec; [|discriminate].
    cbn [mbind option_bind] in Hrun. injection Hrun as <- <-.
    assert (Hwf1 : decoder_wf d1).
    { eapply callback_preserves_wf; [exact Hwf| |exact Hstep].
      unfold is_u8 in Hrx. lia. }
    destruct (IH d1 d2 outs2 Hwf1 Hrest Hrec) as (Hwf2 & Hcount & Hone).
    split; [exact Hwf2|]. destruct out as [evs|]; cbn [from_option app length].
    + split; [lia|]. constructor; [|exact Hone].
      exact (callback_reply_count d d1 rx evs Hwf Hstep).
    + split; [lia|exact Hone].
Qed.

Lemma decoder_run_invariant_witness :
  decoder_wf (Decoder (PACKET_START :: 0 :: 5 :: repeat 0 29) 1 1 0)
  /\ (length [[UartTransmit (bytes_of_string ERR_text)]] <= length [7; 170; 0; 5; 170])%nat
  /\ Forall (fun evs => length (filter is_reply evs) = 1%nat)
       [[UartTransmit (bytes_of_string ERR_text)]].
Proof.
  apply (decoder_run_invariant [7; 170; 0; 5; 170] decoder_init).
  - exact decoder_init_wf.
  - repeat constructor; unfold is_u8; lia.
  - vm_compute. reflexivity.
Defined.

(** X7.  Between two calls the callback's only failure is the write past
    the end of [packetBuffer]: in a state that satisfies the invariant a
    byte makes it fail exactly when the payload is being read and the write
    index has reached [BUFFER_SIZE]; with a declared length of at most
    [BUFFER_SIZE - 3] that never happens. *)
Theorem callback_fails_only_past_the_buffer (d : decoder) (rx : Z) :
  decoder_wf d ->
  (HAL_UART_RxCpltCallback USART2 rx d = None
   <-> packetState d = 2 /\ packetIndex d = BUFFER_SIZE)
  /\ (packetState d = 2 -> packetLength d + 3 <= BUFFER_SIZE ->
      HAL_UART_RxCpltCallback USART2 rx d <> None).
Proof.
  intros Hwf. pose proof Hwf as [Hsz Hcases].
  assert (Hiff : HAL_UART_RxCpltCallback USART2 rx d = None
                 <-> packetState d = 2 /\ packetIndex d = BUFFER_SIZE).
  { unfold BUFFER_SIZE in *.
    destruct Hcases as [H0|[[H1 Hidx]|(H2 & Hrange & Hlt & Hlen)]].
    - split; [|intros [? _]; congruence].
      destruct (Z.eq_dec rx PACKET_START) as [->|Hne].
      + rewrite callback_idle_marker; [discriminate|assumption|].
        destruct (packetBuffer d); [simpl in Hsz; lia|congruence].
      + rewrite callback_idle_other by assumption. discriminate.
    - rewrite callback_length by (assumption || lia).
      split; [discriminate|intros [? _]; congruence].
    - destruct (Z_lt_le_dec (packetIndex d) 32) as [Hin|Hout].
      + destruct (callback_payload_wf d rx Hwf H2 Hin)
          as [[_ Heq]|(_ & _ & evs & _ & Heq)]; rewrite Heq;
          (split; [discriminate|intros [_ ?]; lia]).
      + rewrite callback_overflow by first [right; assumption | lia].
        split; [intros _; split; [assumption|lia]|reflexivity]. }
  split; [exact Hiff|].
  intros H2 Hfit Hnone. apply Hiff in Hnone as [_ Hidx].
  destruct Hcases as [H0|[[H1 _]|(_ & _ & Hlt & _)]]; try congruence.
  lia.
Qed.

Lemma callback_fails_only_past_the_buffer_witness :
  let d := Decoder (PACKET_START :: 30 :: repeat 7 30) 32 2 30 in
  (HAL_UART_RxCpltCallback USART2 7 d = None
   <-> packetState d = 2 /\ packetIndex d = BUFFER_SIZE)
  /\ (packetState d = 2 -> packetLength d + 3 <= BUFFER_SIZE ->
      HAL_UART_RxCpltCallback USART2 7 d <> None).
Proof.
  apply (callback_fails_only_past_the_buffer
           (Decoder (PACKET_START :: 30 :: repeat 7 30) 32 2 30) 7).
  split; [reflexivity|]. right; right.
  repeat split; try reflexivity; vm_compute; congruence.
Defined.



(** ** The encoder's bound *)




(** ** The servo's pulse width *)

(** X10.  Whatever byte [SetServoAngle] is given, it writes the compare
    register exactly once, with a pulse width between 50 and 150 that does not
    decrease when the angle grows; 0, 90 and 180 degrees give 50, 100 and
    150. *)
Theorem servo_pulse_range (a b : Z) :
  is_u8 a -> is_u8 b -> a <= b ->
  exists wa wb,
    SetServoAngle a = [TimSetCompare wa]
    /\ SetServoAngle b = [TimSetCompare wb]
    /\ 50 <= wa /\ wa <= wb /\ wb <= 150
    /\ SetServoAngle 0 = [TimSetCompare 50]
    /\ SetServoAngle SERVO_OPEN = [TimSetCompare 100]
    /\ SetServoAngle 180 = [TimSetCompare 150].
Proof.
  unfold is_u8. intros Ha Hb Hab.
  assert (Hpulse : forall x, 0 <= x ->
            SetServoAngle x = [TimSetCompare (50 + Z.min x 180 * 100 / 180)]
            /\ 0 <= Z.min x 180 * 100 / 180 <= 100).
  { intros x Hx.
    assert (Hr : 0 <= Z.min x 180 * 100 / 180 <= 100).
    { split; [apply Z.div_pos; lia|].
      change 100 with (180 * 100 / 180) at 2. apply Z.div_le_mono; lia. }
    split; [|exact Hr].
    unfold SetServoAngle, clamp_angle.
    replace (if 180 <? x then 180 else x) with (Z.min x 180)
      by (destruct (Z.ltb_spec 180 x); lia).
    unfold u32. rewrite Z.mod_small by lia. reflexivity. }
  destruct (Hpulse a ltac:(lia)) as [Ea Ra].
  destruct (Hpulse b ltac:(lia)) as [Eb Rb].
  eexists. eexists. split; [exact Ea|]. split; [exact Eb|].
  split; [lia|]. split; [|split; [lia|repeat split]].
  apply Z.add_le_mono_l, Z.div_le_mono; lia.
Qed.

Lemma servo_pulse_range_witness :
  exists wa wb,
    SetServoAngle 45 = [TimSetCompare wa]
    /\ SetServoAngle 200 = [TimSetCompare wb]
    /\ 50 <= wa /\ wa <= wb /\ wb <= 150
    /\ SetServoAngle 0 = [TimSetCompare 50]
    /\ SetServoAngle SERVO_OPEN = [TimSetCompare 100]
    /\ SetServoAngle 180 = [TimSetCompare 150].
Proof.
  apply (servo_pulse_range 45 200); unfold is_u8; lia.
Defined.

(** ** Host commands, from the wire to the collaborators *)

(** A frame with a correct checksum received from the idle state: what the
    dispatcher does with the event id and with the memory at [&buffer[3]],
    which is the payload, then the checksum byte, then the cells of the array
    the frame did not reach. *)
Lemma receive_valid_frame (d : decoder) (eventId : Z) (data : list Z) :
  packetState d = 0 ->
  Z.of_nat (length (packetBuffer d)) = BUFFER_SIZE ->
  Z.of_nat (length data) <= BUFFER_SIZE - 4 ->
  let crc := crc8_fold 0 (eventId :: data) in
  exists d' rest acts,
    length rest = (28 - length data)%nat
    /\ rest = drop (4 + length data) (packetBuffer d)
    /\ dispatch_event eventId (data ++ crc :: rest) = Some acts
    /\ receive ([PACKET_START; Z.of_nat (length data) + 1; eventId] ++ data ++ [crc]) d
       = Some (d', [UartTransmit (bytes_of_string OK_text) :: acts])
    /\ packetState d' = 0.
Proof.
  intros Hst Hsz Hn crc. unfold BUFFER_SIZE in *.
  destruct d as [buf0 idx0 st0 len0]. simpl in Hst, Hsz. subst st0.
  set (len := Z.of_nat (length data) + 1).
  set (body := eventId :: data).
  set (rest := drop (4 + length data) buf0).
  assert (Hrest : length rest = (28 - length data)%nat)
    by (unfold rest; rewrite length_drop; lia).
  set (buf := [PACKET_START; len] ++ body ++ crc :: rest).
  assert (Hasm : assembled buf len).
  { unfold assembled, BUFFER_SIZE, buf, len, body. repeat split; try lia.
    rewrite length_app. simpl. rewrite length_app. simpl. lia. }
  destruct (frame_layout len body crc rest) as [Hrx Hcalc];
    [unfold len, body; simpl; lia|]. fold buf in Hrx, Hcalc.
  destruct (ProcessReceivedPacket_cases _ _ Hasm)
    as (rx' & calc' & eventId' & acts & Hrx' & Hcalc' & Hev & Hacts & _ & Hrun).
  rewrite Hrx in Hrx'. rewrite Hcalc in Hcalc'.
  injection Hrx' as <-. injection Hcalc' as <-.
  change (load buf 2) with (Some eventId) in Hev. injection Hev as <-.
  fold crc in Hrun. rewrite Z.eqb_refl in Hrun.
  change (drop 3 buf) with (data ++ crc :: rest) in Hacts.
  exists (Decoder buf 0 0 len), rest, acts.
  split; [exact Hrest|]. split; [reflexivity|]. split; [exact Hacts|].
  split; [|reflexivity].
  destruct buf0 as [|b0 [|b1 rest30]]; try (simpl in Hsz; lia).
  assert (H30 : length rest30 = 30%nat) by (simpl in Hsz; lia).
  change ([PACKET_START; len; eventId] ++ data ++ [crc])
    with ([PACKET_START; len] ++ body ++ [crc]).
  rewrite (app_assoc [PACKET_START; len] body [crc]), receive_app.
  assert (Hpre :
    receive ([PACKET_START; len] ++ body) (Decoder (b0 :: b1 :: rest30) idx0 0 len0)
    = Some (Decoder ([PACKET_START; len] ++ body ++ drop (length body) rest30)
              (Z.of_nat (2 + length body)) 2 len, [])).
  { cbn [receive app].
    rewrite callback_idle_marker by (simpl; congruence).
    cbn [mbind option_bind packetBuffer packetLength].
    rewrite callback_length by (simpl; lia).
    cbn [mbind option_bind packetBuffer packetIndex].
    change (<[Z.to_nat 1:=len]> (<[0%nat:=PACKET_START]> (b0 :: b1 :: rest30)))
      with ([PACKET_START; len] ++ rest30).
    change (u8 (1 + 1)) with (Z.of_nat (length [PACKET_START; len])).
    rewrite receive_payload by (unfold len, body; simpl; lia).
    reflexivity. }
  rewrite Hpre. cbn [mbind option_bind receive].
  assert (Hdrop : drop (length body) rest30
                  = default 0 (rest30 !! length body) :: rest).
  { unfold rest, body. simpl length.
    change (drop (4 + length data) (b0 :: b1 :: rest30))
      with (drop (S (S (length data))) rest30).
    destruct (lookup_lt_is_Some_2 rest30 (S (length data)) ltac:(lia)) as [j Hj].
    rewrite Hj. simpl default. now apply drop_S. }
  rewrite Hdrop.
  rewrite (app_assoc [PACKET_START; len] body (_ :: rest)).
  assert (Hlen : length ([PACKET_START; len] ++ body) = (2 + length body)%nat)
    by (rewrite length_app; reflexivity).
  rewrite callback_payload;
    [|reflexivity|cbn [packetIndex packetBuffer];
                  rewrite length_app, Hlen; unfold body; simpl; lia].
  cbn [packetIndex packetBuffer packetLength]. cbv zeta.
  rewrite Nat2Z.id, <- Hlen, insert_middle.
  rewrite <- (app_assoc [PACKET_START; len] body (crc :: rest)). fold buf.
  assert (Hu8 : u8 (Z.of_nat (length ([PACKET_START; len] ++ body)) + 1) = len + 3).
  { rewrite Hlen. unfold u8, len, body. simpl length.
    rewrite Z.mod_small; lia. }
  rewrite Hu8.
  destruct (Z.geb_spec (len + 3) (len + 3)) as [_|Hlt]; [|lia].
  rewrite Hrun. reflexivity.
Qed.

Lemma CalculateCRC8_whole (span : list Z) (crc : Z) :
  CalculateCRC8 span (Z.of_nat (length span)) = Some crc ->
  crc = crc8_fold 0 span.
Proof.
  intros H. pose proof (CalculateCRC8_span span []) as E.
  rewrite app_nil_r in E. congruence.
Qed.

(** X11.  A licence-plate status frame with a correct checksum is answered
    with OK and moves the barrier: open (pulse width 100, 90 degrees) when the
    flag byte is 1, closed (pulse width 50) for every other value. *)
Theorem plate_status_moves_the_barrier (d : decoder) (flag crc : Z) :
  packetState d = 0 ->
  Z.of_nat (length (packetBuffer d)) = BUFFER_SIZE ->
  CalculateCRC8 [EVENT_LP_STATUS; flag] 2 = Some crc ->
  exists d',
    receive [PACKET_START; 2; EVENT_LP_STATUS; flag; crc] d
    = Some (d', [[UartTransmit (bytes_of_string OK_text);
                  TimSetCompare (if flag =? 1 then 100 else 50)]])
    /\ packetState d' = 0.
Proof.
  intros Hst Hsz Hcrc.
  apply (CalculateCRC8_whole [EVENT_LP_STATUS; flag]) in Hcrc. subst crc.
  destruct (receive_valid_frame d EVENT_LP_STATUS [flag] Hst Hsz)
    as (d' & rest & acts & _ & _ & Hacts & Hrun & Hidle);
    [vm_compute; congruence|].
  exists d'. split; [|exact Hidle].
  cbv zeta in *.
  unfold dispatch_event in Hacts. simpl in Hacts. injection Hacts as <-.
  destruct (flag =? 1); exact Hrun.
Qed.

Lemma plate_status_moves_the_barrier_witness :
  exists d',
    receive [PACKET_START; 2; EVENT_LP_STATUS; 1; 83] decoder_init
    = Some (d', [[UartTransmit (bytes_of_string OK_text);
                  TimSetCompare (if 1 =? 1 then 100 else 50)]])
    /\ packetState d' = 0.
Proof.
  apply (plate_status_moves_the_barrier decoder_init 1 83).
  - reflexivity.
  - reflexivity.
  - vm_compute. reflexivity.
Defined.

(** X12.  A lot-full frame with a correct checksum is answered with OK and
    puts a fixed text on the display: Lot Full when the flag byte is 1,
    Spaces Available for every other value; the text handed over is
    NUL-terminated. *)
Theorem lot_full_sets_the_display (d : decoder) (flag crc : Z) :
  packetState d = 0 ->
  Z.of_nat (length (packetBuffer d)) = BUFFER_SIZE ->
  CalculateCRC8 [EVENT_PARK_FULL; flag] 2 = Some crc ->
  exists d' message,
    receive [PACKET_START; 2; EVENT_PARK_FULL; flag; crc] d
    = Some (d', [[UartTransmit (bytes_of_string OK_text); OledDisplay message]])
    /\ packetState d' = 0
    /\ c_string message
       = bytes_of_string (if flag =? 1 then "Lot Full" else "Spaces Available").
Proof.
  intros Hst Hsz Hcrc.
  apply (CalculateCRC8_whole [EVENT_PARK_FULL; flag]) in Hcrc. subst crc.
  destruct (receive_valid_frame d EVENT_PARK_FULL [flag] Hst Hsz)
    as (d' & rest & acts & _ & _ & Hacts & Hrun & Hidle);
    [vm_compute; congruence|].
  cbv zeta in *.
  unfold dispatch_event in Hacts. simpl in Hacts. injection Hacts as <-.
  exists d'. destruct (flag =? 1); eexists;
    (split; [exact Hrun|split; [exact Hidle|reflexivity]]).
Qed.

Lemma lot_full_sets_the_display_witness :
  exists d' message,
    receive [PACKET_START; 2; EVENT_PARK_FULL; 0; 65] decoder_init
    = Some (d', [[UartTransmit (bytes_of_string OK_text); OledDisplay message]])
    /\ packetState d' = 0
    /\ c_string message
       = bytes_of_string (if 0 =? 1 then "Lot Full" else "Spaces Available").
Proof.
  apply (lot_full_sets_the_display decoder_init 0 65).
  - reflexivity.
  - reflexivity.
  - vm_compute. reflexivity.
Defined.

Lemma c_string_app (a b : list Z) :
  Forall (fun c => c <> 0) a -> c_string (a ++ b) = a ++ c_string b.
Proof.
  induction 1 as [|c a Hc _ IH]; [reflexivity|].
  simpl. destruct (Z.eqb_spec c 0); [contradiction|]. now rewrite IH.
Qed.

(** X13.  A display frame with a correct checksum is answered with OK and
    hands the display the memory that starts at the payload; nothing puts a
    NUL after the payload.  The next cell holds the frame's checksum and the
    cells after it hold what the array held before, so for a payload without
    NUL bytes the string the display reads is the payload alone only when the
    checksum happens to be 0, and otherwise runs on through the checksum
    byte. *)
Theorem display_text_runs_past_the_payload (d : decoder) (data : list Z) (crc : Z) :
  packetState d = 0 ->
  Z.of_nat (length (packetBuffer d)) = BUFFER_SIZE ->
  Z.of_nat (length data) <= BUFFER_SIZE - 4 ->
  Forall (fun c => c <> 0) data ->
  CalculateCRC8 (EVENT_DISPLAY :: data) (Z.of_nat (length data) + 1) = Some crc ->
  exists d' message,
    receive ([PACKET_START; Z.of_nat (length data) + 1; EVENT_DISPLAY]
               ++ data ++ [crc]) d
    = Some (d', [[UartTransmit (bytes_of_string OK_text); OledDisplay message]])
    /\ message = data ++ crc :: drop (4 + length data) (packetBuffer d)
    /\ (crc = 0 -> c_string message = data)
    /\ (crc <> 0 ->
        c_string message
        = data ++ crc :: c_string (drop (4 + length data) (packetBuffer d))).
Proof.
  intros Hst Hsz Hn Hdata Hcrc.
  replace (Z.of_nat (length data) + 1)
    with (Z.of_nat (length (EVENT_DISPLAY :: data))) in Hcrc by (simpl; lia).
  apply CalculateCRC8_whole in Hcrc.
  destruct (receive_valid_frame d EVENT_DISPLAY data Hst Hsz Hn)
    as (d' & rest & acts & _ & -> & Hacts & Hrun & _).
  cbv zeta in *. rewrite <- Hcrc in Hacts, Hrun. clear Hcrc.
  change (dispatch_event EVENT_DISPLAY ?m) with (Some [OledDisplay m]) in Hacts.
  injection Hacts as <-.
  exists d'. eexists. split; [exact Hrun|]. split; [reflexivity|].
  rewrite c_string_app by assumption. cbn [c_string]. split.
  - intros ->. simpl. now rewrite app_nil_r.
  - intros Hne. destruct (Z.eqb_spec crc 0); [contradiction|reflexivity].
Qed.

Lemma display_text_runs_past_the_payload_witness :
  exists d' message,
    receive ([PACKET_START; 5 + 1; EVENT_DISPLAY]
               ++ bytes_of_string "Ready" ++ [107]) decoder_init
    = Some (d', [[UartTransmit (bytes_of_string OK_text); OledDisplay message]])
    /\ message = bytes_of_string "Ready" ++ 107 :: drop (4 + 5) (packetBuffer decoder_init)
    /\ (107 = 0 -> c_string message = bytes_of_string "Ready")
    /\ (107 <> 0 ->
        c_string message
        = bytes_of_string "Ready"
            ++ 107 :: c_string (drop (4 + 5) (packetBuffer decoder_init))).
Proof.
  apply (display_text_runs_past_the_payload decoder_init
           (bytes_of_string "Ready") 107).
  - reflexivity.
  - reflexivity.
  - vm_compute. congruence.
  - repeat constructor; vm_compute; congruence.
  - vm_compute. reflexivity.
Defined.

(** ** The main loop's reports *)

(** One pass of the loop, in full. *)
Lemma main_loop_body_full (i : sample) (p : presence) :
  let cd := if fires i p then pin i else carDetected p in
  let beat := 1000 <? u32 (tick_beat i - lastDetectionSendTime p) in
  main_loop_body i p
  = Some (Presence cd (pin i) (next_mark i p)
            (if beat then tick_stamp i else lastDetectionSendTime p),
          Reports (if fires i p
                   then [UartTransmit (frame_bytes EVENT_CAR_DETECT [pin i])]
                   else [])
                  (if beat
                   then [UartTransmit (frame_bytes EVENT_CAR_DETECT [cd])]
                   else [])).
Proof.
  unfold main_loop_body, debounce_block, fires, next_mark.
  destruct (DEBOUNCE_TIME <? _); cbn [andb];
    [destruct (negb (carDetected p =? pin i))|];
    try rewrite SendPacket_car_detect; cbn [mbind option_bind];
    unfold periodic_block; cbn [carDetected lastCarDetected lastDebounceTime
                                  lastDetectionSendTime];
    destruct (1000 <? _); try rewrite SendPacket_car_detect;
    cbn [mbind option_bind]; reflexivity.
Qed.

(** X14.  The periodic report: as long as no pass sees more than 1000 ticks
    since the last periodic report, none is sent and the time of the last one
    is kept; the first pass that sees more than 1000 sends exactly one packet,
    which carries the value [carDetected] has after that pass, and records
    its own tick.  When the same pass also reports a change, two packets go
    out and they are the same. *)
Theorem periodic_report_every_1000_ticks
    (p : presence) (quiet : list sample) (i : sample) :
  Forall (fun j => u32 (tick_beat j - lastDetectionSendTime p) <= 1000) quiet ->
  1000 < u32 (tick_beat i - lastDetectionSendTime p) ->
  exists p1 rs p2 r crc,
    main_loop quiet p = Some (p1, rs)
    /\ periodic_events rs = []
    /\ lastDetectionSendTime p1 = lastDetectionSendTime p
    /\ main_loop_body i p1 = Some (p2, r)
    /\ CalculateCRC8 [EVENT_CAR_DETECT; carDetected p2] 2 = Some crc
    /\ periodic_report r
       = [UartTransmit [PACKET_START; 2; EVENT_CAR_DETECT; carDetected p2; crc]]
    /\ lastDetectionSendTime p2 = tick_stamp i
    /\ (change_report r = [] \/ change_report r = periodic_report r).
Proof.
  intros Hquiet Hdue.
  assert (Hrun : exists p1 rs,
             main_loop quiet p = Some (p1, rs)
             /\ periodic_events rs = []
             /\ lastDetectionSendTime p1 = lastDetectionSendTime p).
  { clear Hdue. revert p Hquiet.
    induction quiet as [|j rest IH]; intros p Hquiet.
    - exists p, []. repeat split.
    - apply Forall_cons in Hquiet as [Hj Hrest].
      pose proof (main_loop_body_full j p) as Hbody. cbv zeta in Hbody.
      destruct (Z.ltb_spec 1000 (u32 (tick_beat j - lastDetectionSendTime p)));
        [lia|].
      rewrite (main_loop_cons _ _ _ _ _ Hbody).
      match type of Hbody with _ = Some (?q, _) =>
        destruct (IH q Hrest) as (p1 & rs & Hrun & Hnone & Hkeep) end.
      rewrite Hrun. cbn [mbind option_bind].
      exists p1. eexists. split; [reflexivity|]. split; [|exact Hkeep].
      unfold periodic_events in *. simpl. exact Hnone. }
  destruct Hrun as (p1 & rs & Hrun & Hnone & Hkeep).
  pose proof (main_loop_body_full i p1) as Hbody. cbv zeta in Hbody.
  rewrite Hkeep in Hbody.
  destruct (Z.ltb_spec 1000 (u32 (tick_beat i - lastDetectionSendTime p)));
    [|lia].
  exists p1, rs. eexists. eexists. eexists.
  split; [exact Hrun|]. split; [exact Hnone|]. split; [exact Hkeep|].
  split; [exact Hbody|]. cbn [carDetected periodic_report change_report
                                lastDetectionSendTime].
  split; [apply (CalculateCRC8_span [EVENT_CAR_DETECT; _] [])|].
  split; [reflexivity|]. split; [reflexivity|].
  destruct (fires i p1); [right; reflexivity|left; reflexivity].
Qed.

Lemma periodic_report_every_1000_ticks_witness :
  exists p1 rs p2 r crc,
    main_loop [at_tick 500 0; at_tick 1000 0] presence_init = Some (p1, rs)
    /\ periodic_events rs = []
    /\ lastDetectionSendTime p1 = lastDetectionSendTime presence_init
    /\ main_loop_body (at_tick 1001 0) p1 = Some (p2, r)
    /\ CalculateCRC8 [EVENT_CAR_DETECT; carDetected p2] 2 = Some crc
    /\ periodic_report r
       = [UartTransmit [PACKET_START; 2; EVENT_CAR_DETECT; carDetected p2; crc]]
    /\ lastDetectionSendTime p2 = tick_stamp (at_tick 1001 0)
    /\ (change_report r = [] \/ change_report r = periodic_report r).
Proof.
  apply (periodic_report_every_1000_ticks presence_init
           [at_tick 500 0; at_tick 1000 0] (at_tick 1001 0)).
  - repeat constructor; vm_compute; congruence.
  - vm_compute. reflexivity.
Defined.

(** X15.  The main loop never writes outside [SendPacket]'s array: every
    run of passes goes through, each pass transmits at most two packets, and
    every packet it transmits is a five-byte car-detection frame: start
    marker, length 2, event id 3, one payload byte and the checksum of the
    event id and that byte. *)
Theorem main_loop_transmits_car_detection_frames (samples : list sample) :
  forall p : presence,
  exists p' rs,
    main_loop samples p = Some (p', rs)
    /\ length rs = length samples
    /\ Forall (fun r =>
         (length (change_report r ++ periodic_report r) <= 2)%nat
         /\ Forall (fun e => exists v crc,
                      CalculateCRC8 [EVENT_CAR_DETECT; v] 2 = Some crc
                      /\ e = UartTransmit
                               [PACKET_START; 2; EVENT_CAR_DETECT; v; crc])
              (change_report r ++ periodic_report r)) rs.
Proof.
  induction samples as [|i rest IH]; intros p.
  - exists p, []. repeat split. constructor.
  - pose proof (main_loop_body_full i p) as Hbody. cbv zeta in Hbody.
    rewrite (main_loop_cons _ _ _ _ _ Hbody).
    match type of Hbody with _ = Some (?q, _) =>
      destruct (IH q) as (p' & rs & Hrun & Hlen & Hall) end.
    rewrite Hrun. cbn [mbind option_bind].
    exists p'. eexists. split; [reflexivity|]. split; [simpl; lia|].
    constructor; [|exact Hall]. cbn [change_report periodic_report].
    assert (Hpkt : forall v, exists v' crc,
               CalculateCRC8 [EVENT_CAR_DETECT; v'] 2 = Some crc
               /\ UartTransmit (frame_bytes EVENT_CAR_DETECT [v])
                  = UartTransmit [PACKET_START; 2; EVENT_CAR_DETECT; v'; crc]).
    { intros v. exists v, (crc8_fold 0 [EVENT_CAR_DETECT; v]).
      split; [apply (CalculateCRC8_span [EVENT_CAR_DETECT; v] [])|reflexivity]. }
    destruct (fires i p);
      destruct (1000 <? u32 (tick_beat i - lastDetectionSendTime p));
      (split; [simpl; lia|repeat constructor; apply Hpkt]).
Qed.

Lemma u32_elapsed (mark delta : Z) :
  0 <= delta < 2 ^ 32 -> u32 (u32 (mark + delta) - mark) = delta.
Proof.
  intros Hd. unfold u32. rewrite Zminus_mod_idemp_l.
  replace (mark + delta - mark) with delta by lia.
  now apply Z.mod_small.
Qed.

(** X16.  The debounce timer survives the wrap of the 32-bit tick counter:
    after a transition away from a settled value seen at tick [mark], a pass
    [delta] ticks later, with [delta] above [DEBOUNCE_TIME] and below 2^32,
    reports the change, wherever the counter wrapped in between. *)
Theorem debounce_across_tick_wrap (q : presence) (r mark delta : Z) :
  lastCarDetected q = carDetected q ->
  r <> carDetected q ->
  DEBOUNCE_TIME < delta < 2 ^ 32 ->
  exists q' rs crc,
    main_loop [at_tick mark r; at_tick (u32 (mark + delta)) r] q = Some (q', rs)
    /\ CalculateCRC8 [EVENT_CAR_DETECT; r] 2 = Some crc
    /\ map change_report rs
       = [[]; [UartTransmit [PACKET_START; 2; EVENT_CAR_DETECT; r; crc]]]
    /\ carDetected q' = r.
Proof.
  unfold DEBOUNCE_TIME. intros Hsettled Hnew Hdelta.
  pose proof (main_loop_body_full (at_tick mark r) q) as H1. cbv zeta in H1.
  assert (F1 : fires (at_tick mark r) q = false).
  { unfold fires, next_mark. cbn [pin tick_mark tick_check at_tick].
    rewrite Hsettled.
    destruct (Z.eqb_spec r (carDetected q)); [contradiction|]. cbn [negb].
    rewrite Z.sub_diag. reflexivity. }
  assert (M1 : next_mark (at_tick mark r) q = mark).
  { unfold next_mark. cbn [pin tick_mark at_tick]. rewrite Hsettled.
    destruct (Z.eqb_spec r (carDetected q)); [contradiction|reflexivity]. }
  rewrite F1, M1 in H1. cbn [pin at_tick] in H1.
  rewrite (main_loop_cons _ _ _ _ _ H1).
  match type of H1 with _ = Some (?q1, _) =>
    pose proof (main_loop_body_full (at_tick (u32 (mark + delta)) r) q1) as H2 end.
  cbv zeta in H2.
  assert (F2 : forall stamp,
             fires (at_tick (u32 (mark + delta)) r)
                   (Presence (carDetected q) r mark stamp) = true).
  { intros stamp. unfold fires, next_mark.
    cbn [pin tick_mark tick_check at_tick carDetected lastCarDetected
           lastDebounceTime].
    rewrite Z.eqb_refl. cbn [negb]. rewrite u32_elapsed by lia.
    destruct (Z.eqb_spec (carDetected q) r); [congruence|].
    destruct (Z.ltb_spec DEBOUNCE_TIME delta); [reflexivity|].
    unfold DEBOUNCE_TIME in *. lia. }
  rewrite F2 in H2. cbn [pin at_tick] in H2.
  rewrite (main_loop_cons _ _ _ _ _ H2). cbn [main_loop mbind option_bind].
  eexists. eexists. eexists. split; [reflexivity|].
  split; [apply (CalculateCRC8_span [EVENT_CAR_DETECT; r] [])|].
  split; reflexivity.
Qed.

Lemma debounce_across_tick_wrap_witness :
  exists q' rs crc,
    main_loop [at_tick (2 ^ 32 - 10) 1; at_tick (u32 (2 ^ 32 - 10 + 60)) 1]
      presence_init = Some (q', rs)
    /\ CalculateCRC8 [EVENT_CAR_DETECT; 1] 2 = Some crc
    /\ map change_report rs
       = [[]; [UartTransmit [PACKET_START; 2; EVENT_CAR_DETECT; 1; crc]]]
    /\ carDetected q' = 1.
Proof.
  apply (debounce_across_tick_wrap presence_init 1 (2 ^ 32 - 10) 60).
  - reflexivity.
  - simpl. lia.
  - unfold DEBOUNCE_TIME. lia.
Defined.

(** ** The display's byte transport *)

Lemma i2c_stage_spec (bytes : list Z) :
  forall pre junk tail : list Z,
    (length bytes <= length junk)%nat ->
    Z.of_nat (length pre + length bytes) <= 255 ->
    i2c_stage (bytes ++ tail) (I2cStaging (pre ++ junk) (Z.of_nat (length pre)))
      (length bytes)
    = Some (I2cStaging (pre ++ bytes ++ drop (length bytes) junk)
              (Z.of_nat (length pre + length bytes))).
Proof.
  induction bytes as [|c bytes IH]; intros pre junk tail Hroom Hidx.
  - simpl. rewrite drop_0, Nat.add_0_r. reflexivity.
  - destruct junk as [|j junk]; [simpl in Hroom; lia|].
    cbn [i2c_stage length app]. change (load (c :: bytes ++ tail) 0) with (Some c).
    cbn [mbind option_bind i2c_buffer buf_idx].
    rewrite store_in_bounds by (rewrite length_app; simpl; lia).
    rewrite Nat2Z.id, insert_middle. cbn [mbind option_bind].
    replace (u8 (Z.of_nat (length pre) + 1)) with (Z.of_nat (length (pre ++ [c]))).
    2:{ rewrite length_app. simpl in *. unfold u8. rewrite Z.mod_small; lia. }
    replace (pre ++ c :: junk) with ((pre ++ [c]) ++ junk)
      by now rewrite <- app_assoc.
    change (drop 1 (c :: bytes ++ tail)) with (bytes ++ tail).
    rewrite IH.
    + rewrite <- app_assoc. simpl. do 2 f_equal.
      rewrite length_app. simpl. lia.
    + simpl in Hroom. lia.
    + rewrite length_app. simpl in *. lia.
Qed.

Lemma i2c_send_chunks (address : Z) (chunks : list (list Z)) :
  forall (pre junk : list Z) (rest : list (u8x8_msg * list Z)),
    (length (concat chunks) <= length junk)%nat ->
    Z.of_nat (length pre + length (concat chunks)) <= 255 ->
    i2c_calls address (map (fun c => (U8X8_MSG_BYTE_SEND, c)) chunks ++ rest)
      (I2cStaging (pre ++ junk) (Z.of_nat (length pre)))
    = '(st2, rets, evs) ←
        i2c_calls address rest
          (I2cStaging (pre ++ concat chunks ++ drop (length (concat chunks)) junk)
             (Z.of_nat (length pre + length (concat chunks))));
      Some (st2, repeat 1 (length chunks) ++ rets, evs).
Proof.
  induction chunks as [|c chunks IH]; intros pre junk rest Hroom Hidx.
  - simpl. rewrite drop_0, Nat.add_0_r.
    destruct (i2c_calls address rest _) as [[[st2 rets] evs]|]; reflexivity.
  - cbn [map app i2c_calls concat] in *. rewrite length_app in Hroom, Hidx.
    unfold u8x8_byte_stm32_hw_i2c. rewrite Nat2Z.id.
    pose proof (i2c_stage_spec c pre junk [] ltac:(lia) ltac:(lia)) as Hst.
    rewrite app_nil_r in Hst. rewrite Hst. cbn [mbind option_bind].
    rewrite (app_assoc pre c).
    replace (Z.of_nat (length pre + length c))
      with (Z.of_nat (length (pre ++ c))) by (rewrite length_app; lia).
    rewrite IH by (rewrite ?length_drop, ?length_app; lia).
    rewrite <- !app_assoc, drop_drop, !length_app, Nat.add_assoc.
    destruct (i2c_calls address rest _) as [[[st2 rets] evs]|]; reflexivity.
Qed.

(** X17.  A transfer of the display transport: start, any number of sends
    that together stage at most 32 bytes, end.  Every call returns 1, the one
    bus transaction goes to the display's address shifted left by one bit and
    carries the chunks in order, and the write index is left at the number of
    bytes staged. *)
Theorem i2c_transfer_sends_the_staged_bytes
    (address : Z) (chunks : list (list Z)) (st : i2c_staging) :
  length (i2c_buffer st) = 32%nat ->
  (length (concat chunks) <= 32)%nat ->
  exists st',
    i2c_calls address
      ((U8X8_MSG_BYTE_START_TRANSFER, [])
         :: map (fun c => (U8X8_MSG_BYTE_SEND, c)) chunks
         ++ [(U8X8_MSG_BYTE_END_TRANSFER, [])]) st
    = Some (st', repeat 1 (length chunks + 2),
            [I2cMasterTransmit (2 * address) (concat chunks)])
    /\ buf_idx st' = Z.of_nat (length (concat chunks))
    /\ take (length (concat chunks)) (i2c_buffer st') = concat chunks.
Proof.
  intros Hsz Hfit.
  cbn [i2c_calls u8x8_byte_stm32_hw_i2c mbind option_bind].
  pose proof (i2c_send_chunks address chunks [] (i2c_buffer st)
                [(U8X8_MSG_BYTE_END_TRANSFER, [])] ltac:(lia) ltac:(simpl; lia))
    as Hsend.
  cbn [app length Nat.add] in Hsend. change (Z.of_nat 0) with 0 in Hsend.
  rewrite Hsend. cbn [i2c_calls u8x8_byte_stm32_hw_i2c mbind option_bind
                        buf_idx i2c_buffer app].
  rewrite Nat2Z.id, take_app_length, Z.shiftl_mul_pow2 by lia.
  eexists. split.
  { rewrite Z.mul_comm. change (2 ^ 1) with 2.
    replace (length chunks + 2)%nat with (S (length chunks) + 1)%nat by lia.
    rewrite repeat_app. reflexivity. }
  split; [reflexivity|apply take_app_length].
Qed.

Lemma i2c_transfer_sends_the_staged_bytes_witness :
  exists st',
    i2c_calls 60
      ((U8X8_MSG_BYTE_START_TRANSFER, [])
         :: map (fun c => (U8X8_MSG_BYTE_SEND, c)) [[0; 174]; [64; 1; 2]]
         ++ [(U8X8_MSG_BYTE_END_TRANSFER, [])]) i2c_staging_init
    = Some (st', repeat 1 (2 + 2),
            [I2cMasterTransmit (2 * 60) (concat [[0; 174]; [64; 1; 2]])])
    /\ buf_idx st' = 5
    /\ take 5 (i2c_buffer st') = [0; 174; 64; 1; 2].
Proof.
  apply (i2c_transfer_sends_the_staged_bytes 60 [[0; 174]; [64; 1; 2]]
           i2c_staging_init).
  - reflexivity.
  - simpl. lia.
Defined.

Lemma i2c_stage_Some (todo : nat) :
  forall (data : list Z) (st st' : i2c_staging),
    0 <= buf_idx st <= Z.of_nat (length (i2c_buffer st)) ->
    Z.of_nat (length (i2c_buffer st)) <= 255 ->
    i2c_stage data st todo = Some st' ->
    buf_idx st + Z.of_nat todo <= Z.of_nat (length (i2c_buffer st)).
Proof.
  induction todo as [|k IH]; intros data st st' Hidx Hsz Hrun; [lia|].
  cbn [i2c_stage] in Hrun.
  destruct (load data 0) as [c|]; [|discriminate].
  cbn [mbind option_bind] in Hrun.
  destruct (store (i2c_buffer st) (buf_idx st) c) as [buf|] eqn:Hstore;
    [|discriminate].
  cbn [mbind option_bind] in Hrun.
  apply store_Some in Hstore as [Hin ->].
  apply IH in Hrun; cbn [buf_idx i2c_buffer] in *;
    rewrite ?length_insert in *.
  - unfold u8 in Hrun. rewrite Z.mod_small in Hrun; lia.
  - unfold u8. rewrite Z.mod_small; lia.
  - lia.
Qed.

(** X18.  The transport has no bound on what it stages: a send that would
    take the write index past the 32 cells of its array writes outside the
    array. *)
Theorem i2c_send_overruns_the_staging_buffer
    (address : Z) (bytes : list Z) (st : i2c_staging) :
  length (i2c_buffer st) = 32%nat ->
  0 <= buf_idx st <= 32 ->
  Z.of_nat (length bytes) <= 255 ->
  32 < buf_idx st + Z.of_nat (length bytes) ->
  u8x8_byte_stm32_hw_i2c address U8X8_MSG_BYTE_SEND
    (Z.of_nat (length bytes)) bytes st = None.
Proof.
  intros Hsz Hidx Hu8 Hover. unfold u8x8_byte_stm32_hw_i2c.
  destruct (i2c_stage bytes st (Z.to_nat (Z.of_nat (length bytes)))) as [st'|] eqn:Hrun;
    [|reflexivity].
  apply i2c_stage_Some in Hrun; lia.
Qed.

Lemma i2c_send_overruns_the_staging_buffer_witness :
  u8x8_byte_stm32_hw_i2c 60 U8X8_MSG_BYTE_SEND 33 (repeat 0 33)
    i2c_staging_init = None.
Proof.
  apply (i2c_send_overruns_the_staging_buffer 60 (repeat 0 33) i2c_staging_init).
  - reflexivity.
  - simpl. lia.
  - simpl. lia.
  - simpl. lia.
Defined.

(** ** How long a frame keeps the decoder busy *)

(** X19.  Once the payload is being read with a declared length that fits
    the array, the decoder counts positions and nothing else: whatever the
    next bytes are, it dispatches exactly once, transmitting one reply, when
    the cell after the declared length has been written, and it is idle
    after that byte and at no byte before it. *)
Theorem decoder_returns_to_idle (bytes : list Z) :
  forall d : decoder,
    decoder_wf d ->
    packetState d = 2 ->
    packetLength d + 3 <= BUFFER_SIZE ->
    Forall is_u8 bytes ->
    Z.of_nat (length bytes) = packetLength d + 3 - packetIndex d ->
    exists d' evs dlast,
      receive bytes d = Some (d', [evs])
      /\ packetState d' = 0
      /\ length (filter is_reply evs) = 1%nat
      /\ receive (removelast bytes) d = Some (dlast, [])
      /\ packetState dlast = 2.
Proof.
  induction bytes as [|b rest IH]; intros d Hwf H2 Hfit Hbytes Hlen.
  - exfalso. destruct Hwf as [_ [H0|[[H1 _]|(_ & _ & Hlt & _)]]];
      try congruence. simpl in Hlen. lia.
  - apply Forall_cons in Hbytes as [Hb Hrest].
    assert (Hin : packetIndex d < BUFFER_SIZE).
    { destruct Hwf as [_ [H0|[[H1 _]|(_ & _ & Hlt & _)]]]; try congruence. lia. }
    destruct (callback_payload_wf d b Hwf H2 Hin)
      as [[Hmore Hstep]|(Hdone & Hasm & evs & Hrun & Hstep)].
    + assert (Hwf1 : decoder_wf
                (Decoder (<[Z.to_nat (packetIndex d):=b]> (packetBuffer d))
                   (packetIndex d + 1) 2 (packetLength d))).
      { eapply callback_preserves_wf; [exact Hwf| |exact Hstep].
        unfold is_u8 in Hb. lia. }
      destruct (IH _ Hwf1 eq_refl Hfit Hrest) as (d' & evs & dlast & Hrec & Hidle & Hone & Hpre & Hlast).
      { cbn [packetLength packetIndex]. simpl length in Hlen. lia. }
      exists d', evs, dlast.
      assert (Hne : rest <> []).
      { intros ->. simpl in Hlen. lia. }
      split; [|split; [exact Hidle|split; [exact Hone|split; [|exact Hlast]]]].
      * cbn [receive]. rewrite Hstep. cbn [mbind option_bind].
        rewrite Hrec. reflexivity.
      * destruct rest as [|b' rest']; [congruence|].
        change (removelast (b :: b' :: rest')) with (b :: removelast (b' :: rest')).
        cbn [receive]. rewrite Hstep. cbn [mbind option_bind].
        rewrite Hpre. reflexivity.
    + assert (Hnil : rest = []).
      { destruct rest; [reflexivity|]. simpl length in Hlen. lia. }
      subst rest.
      exists (Decoder (<[Z.to_nat (packetIndex d):=b]> (packetBuffer d)) 0 0
                (packetLength d)), evs, d.
      split; [|split; [reflexivity|split; [|split; [reflexivity|exact H2]]]].
      * cbn [receive]. rewrite Hstep. reflexivity.
      * destruct (ProcessReceivedPacket_cases _ _ Hasm)
          as (rxc & calc & ? & acts & _ & _ & _ & _ & Hnr & Hrun').
        rewrite Hrun' in Hrun. injection Hrun as <-.
        destruct (rxc =? calc); [|reflexivity].
        change (length (UartTransmit (bytes_of_string OK_text)
                          :: filter is_reply acts) = 1%nat).
        now rewrite Hnr.
Qed.

Lemma decoder_returns_to_idle_witness :
  let d := Decoder (PACKET_START :: 2 :: repeat 0 30) 2 2 2 in
  exists d' evs dlast,
    receive [170; 170; 170] d = Some (d', [evs])
    /\ packetState d' = 0
    /\ length (filter is_reply evs) = 1%nat
    /\ receive (removelast [170; 170; 170]) d = Some (dlast, [])
    /\ packetState dlast = 2.
Proof.
  apply (decoder_returns_to_idle [170; 170; 170]
           (Decoder (PACKET_START :: 2 :: repeat 0 30) 2 2 2)).
  - split; [reflexivity|]. right; right.
    repeat split; try reflexivity; vm_compute; congruence.
  - reflexivity.
  - vm_compute. congruence.
  - repeat constructor; unfold is_u8; lia.
  - reflexivity.
Defined.
